(** * newspaperbulk: a shallow embedding of [newspaperbulk.py]

    The script reads a list of URLs, fills a [Queue] with [(index, url)]
    pairs, starts worker threads that fetch every URL through a shared
    [requests] session and hand the page to [newspaper], and appends one
    row per URL to one of two CSV files.  When the queue has been joined,
    the clean file is read back, rows without text are dropped and a
    summary is printed.

    The embedding keeps the structure of the script:
    - Python values, exceptions and the [try]/[except] dispatch;
    - the two [csv.writer]s, standard output and the network as an explicit
      I/O state threaded through a small state-and-exception monad;
    - the worker threads and the main thread as an interleaving step
      function over the shared queue and the shared I/O state.

    Everything outside the script (the remote servers, [newspaper],
    [BeautifulSoup], [dateutil]) is a field of the record [World].  A
    [writerow] and a [print] are taken to succeed, and a call of
    [get_text_from_url] is one step of its thread; a run starts from the
    list of the lines of the input file. *)

From Stdlib Require Import ZArith QArith String Ascii List Lia.
From Stdlib Require Import Floats.SpecFloat.
From Stdlib Require Import Decimal DecimalString.
From stdpp Require Import base decidable option list strings.
Import ListNotations.

Local Open Scope string_scope.
Local Open Scope list_scope.
Local Open Scope Z_scope.

(** ** Python values and exceptions *)

(** The exception classes the script can meet.  The first group is
    [requests.exceptions], the second the builtins raised by the
    extraction step, by [Queue.task_done] and by [main]; [ParserError]
    and [OverflowError] are what [dateutil.parser.parse] raises. *)
Inductive exn : Type :=
| ConnectionError | ProxyError | SSLError | ConnectTimeout
| InvalidSchema | MissingSchema | TooManyRedirects | RetryError
| InvalidURL | ReadTimeout | ChunkedEncodingError | ContentDecodingError
| AttributeError | ValueError | ParserError | OverflowError | KeyError
| LookupError | ZeroDivisionError | EmptyDataError
| OtherError (name : string).

#[global] Instance exn_eq_dec : EqDecision exn.
Proof. solve_decision. Defined.

(** [e.__class__.__name__] *)
Definition class_name (e : exn) : string :=
  match e with
  | ConnectionError => "ConnectionError"
  | ProxyError => "ProxyError"
  | SSLError => "SSLError"
  | ConnectTimeout => "ConnectTimeout"
  | InvalidSchema => "InvalidSchema"
  | MissingSchema => "MissingSchema"
  | TooManyRedirects => "TooManyRedirects"
  | RetryError => "RetryError"
  | InvalidURL => "InvalidURL"
  | ReadTimeout => "ReadTimeout"
  | ChunkedEncodingError => "ChunkedEncodingError"
  | ContentDecodingError => "ContentDecodingError"
  | AttributeError => "AttributeError"
  | ValueError => "ValueError"
  | ParserError => "ParserError"
  | OverflowError => "OverflowError"
  | KeyError => "KeyError"
  | LookupError => "LookupError"
  | ZeroDivisionError => "ZeroDivisionError"
  | EmptyDataError => "EmptyDataError"
  | OtherError name => name
  end.

(** The base classes that matter for the [except] clauses of the script:
    [ProxyError], [SSLError] and [ConnectTimeout] derive from
    [ConnectionError]; the schema errors and [ParserError] from
    [ValueError]. *)
Definition bases (e : exn) : list exn :=
  match e with
  | ProxyError | SSLError | ConnectTimeout => [ConnectionError]
  | InvalidSchema | MissingSchema | InvalidURL | ParserError => [ValueError]
  | KeyError => [LookupError]
  | _ => []
  end.

Definition isinstance (e cls : exn) : bool :=
  bool_decide (e = cls) || bool_decide (cls ∈ bases e).

(** [except (c1, c2, ...)] *)
Definition except (classes : list exn) (e : exn) : bool :=
  existsb (isinstance e) classes.

(** The result of running a piece of Python: a value, or an exception
    on its way up. *)
Inductive outcome (A : Type) : Type :=
| Return (a : A)
| Raise (e : exn).
Arguments Return {A} a.
Arguments Raise {A} e.

(** A cell handed to [csv.writer.writerow]. *)
Inductive value : Type :=
| PyStr (s : string)
| PyInt (z : Z)
| PyList (l : list string)
| PySet (l : list string).

#[global] Instance value_eq_dec : EqDecision value.
Proof. solve_decision. Defined.

(** [str(n)] for an [int]. *)
Definition str_int (z : Z) : string := NilZero.string_of_int (Z.to_int z).

(** [str(n)] for an index produced by [range]. *)
Definition str_nat (n : nat) : string := str_int (Z.of_nat n).

(** A Python [str] whose characters the script counts is kept as the
    list of its characters, one code point each. *)
Definition codepoint : Type := N.

(** The characters of a literal of this development, which are ASCII. *)
Definition chars (s : string) : list codepoint :=
  map N_of_ascii (list_ascii_of_string s).

(** Python's slice bounds: a negative bound counts from the end, and
    both bounds are clamped to the sequence. *)
Definition slice_bound (len : nat) (i : Z) : nat :=
  if i <? 0 then Z.to_nat (Z.max 0 (Z.of_nat len + i))
  else Nat.min (Z.to_nat i) len.

(** [s[start:stop]] *)
Definition slice {A} (s : list A) (start stop : Z) : list A :=
  let n := length s in
  let a := slice_bound n start in
  let b := slice_bound n stop in
  take (b - a) (drop a s).

(** ** The shared I/O state and the monad of the script *)

(** A row handed to [writerow], and a CSV file as the rows written to it
    so far, oldest first.  The header is a row like the others. *)
Definition row : Type := list value.
Definition csvfile : Type := list row.

(** What the process does on the network: one event per transport attempt
    of the HTTP adapter and one per back-off sleep between two attempts. *)
Inductive net_event : Type :=
| Attempt (url : string)
| Sleep (seconds : Q).

Record io : Type := {
  cleanfile : csvfile;      (* exports/<name>-contents.csv, through cleanwriter *)
  errorfile : csvfile;      (* exports/<name>-error.csv, through errorwriter *)
  stdout : list string;     (* the lines printed so far *)
  net : list net_event      (* the network activity so far *)
}.

Definition M (A : Type) : Type := io -> io * outcome A.

Definition ret {A} (a : A) : M A := fun s => (s, Return a).

Definition raise {A} (e : exn) : M A := fun s => (s, Raise e).

Definition bind {A B} (m : M A) (k : A -> M B) : M B :=
  fun s =>
    match m s with
    | (s', Return a) => k a s'
    | (s', Raise e) => (s', Raise e)
    end.

Notation "x <- m ;; k" := (bind m (fun x => k))
  (at level 100, m at next level, right associativity).
Notation "m ;; k" := (bind m (fun _ => k))
  (at level 100, right associativity).

(** Lifting a pure computation that may raise. *)
Definition lift {A} (r : outcome A) : M A := fun s => (s, r).

(** [try: body  except classes_1 as e: h_1  except classes_2 as e: h_2 ...]:
    the first clause whose classes match handles the exception; an
    exception no clause matches goes on up. *)
Fixpoint handle {A} (handlers : list (list exn * (exn -> M A))) (e : exn) : M A :=
  match handlers with
  | [] => raise e
  | (classes, h) :: rest => if except classes e then h e else handle rest e
  end.

Definition try_except {A} (body : M A)
    (handlers : list (list exn * (exn -> M A))) : M A :=
  fun s =>
    match body s with
    | (s', Return a) => (s', Return a)
    | (s', Raise e) => handle handlers e s'
    end.

(** The four ways the script changes the I/O state. *)
Definition append_clean (r : row) (s : io) : io :=
  {| cleanfile := cleanfile s ++ [r]; errorfile := errorfile s;
     stdout := stdout s; net := net s |}.

Definition append_error (r : row) (s : io) : io :=
  {| cleanfile := cleanfile s; errorfile := errorfile s ++ [r];
     stdout := stdout s; net := net s |}.

Definition append_stdout (line : string) (s : io) : io :=
  {| cleanfile := cleanfile s; errorfile := errorfile s;
     stdout := stdout s ++ [line]; net := net s |}.

Definition append_net (evs : list net_event) (s : io) : io :=
  {| cleanfile := cleanfile s; errorfile := errorfile s;
     stdout := stdout s; net := net s ++ evs |}.

Definition cleanwriter_writerow (r : row) : M unit :=
  fun s => (append_clean r s, Return tt).

Definition errorwriter_writerow (r : row) : M unit :=
  fun s => (append_error r s, Return tt).

(** [print(a, b, ...)]: the arguments separated by one space. *)
Definition print (args : list string) : M unit :=
  fun s => (append_stdout (String.concat " " args) s, Return tt).

Definition network (evs : list net_event) : M unit :=
  fun s => (append_net evs s, Return tt).

(** ** [clean_up_output] *)

(** The strings [pandas.read_csv] reads as a missing value by default. *)
Definition STR_NA_VALUES : list string :=
  [""; "#N/A"; "#N/A N/A"; "#NA"; "-1.#IND"; "-1.#QNAN"; "-NaN"; "-nan";
   "1.#IND"; "1.#QNAN"; "<NA>"; "N/A"; "NA"; "NULL"; "NaN"; "None"; "n/a";
   "nan"; "null"].

(** Whether a written cell is read back as missing.  The text written for
    an [int], a [list] or a [set] is never one of the strings above. *)
Definition isna (v : value) : bool :=
  match v with
  | PyStr s => bool_decide (s ∈ STR_NA_VALUES)
  | _ => false
  end.

Record DataFrame : Type := { columns : row; data : list row }.

(** [pd.read_csv(filename)]: the first row names the columns.  This is
    [pandas] on the files the script writes, whose rows all have as many
    cells as the header; what [pandas] does with blank lines and with
    rows longer than the header is not part of it. *)
Definition read_csv (file : csvfile) : outcome DataFrame :=
  match file with
  | [] => Raise EmptyDataError
  | h :: rest => Return {| columns := h; data := rest |}
  end.

Fixpoint column_index (name : string) (cols : row) : option nat :=
  match cols with
  | [] => None
  | c :: cols' =>
      if bool_decide (c = PyStr name) then Some O
      else option_map S (column_index name cols')
  end.

(** A row too short to have the cell is read with a missing value there. *)
Definition cell_isna (i : nat) (r : row) : bool :=
  match r !! i with
  | Some v => isna v
  | None => true
  end.

(** [df.dropna(subset=[name])] *)
Definition dropna (name : string) (df : DataFrame) : outcome DataFrame :=
  match column_index name (columns df) with
  | None => Raise KeyError
  | Some i =>
      Return {| columns := columns df;
                data := List.filter (fun r => negb (cell_isna i r)) (data df) |}
  end.

(** [df.to_csv(filename, index=False)]: the header and the rows kept.
    [pandas] writes each cell from the type it has read the column with,
    so that a cell may be spelt otherwise than the script wrote it (007
    as 7.0 in a column of numbers); the rows are kept here with the
    cells as the script wrote them. *)
Definition to_csv (df : DataFrame) : csvfile := columns df :: data df.

Definition replace_clean (file : csvfile) (s : io) : io :=
  {| cleanfile := file; errorfile := errorfile s;
     stdout := stdout s; net := net s |}.

Definition set_cleanfile (file : csvfile) : M unit :=
  fun s => (replace_clean file s, Return tt).

(** The script passes [output_name_clean]; the file is [cleanfile]. *)
Definition clean_up_output : M nat :=
  fun s =>
    (df0 <- lift (read_csv (cleanfile s)) ;;
     df <- lift (dropna "text" df0) ;;
     set_cleanfile (to_csv df) ;;
     ret (length (data df))) s.

(** ** The world outside the script *)

(** An element of the queue: [(i, urls[i])]. *)
Definition WorkItem : Type := nat * string.

Record Response : Type := { status_code : Z }.

(** [response.ok] of [requests]: false exactly when [raise_for_status]
    would raise, that is for a status from 400 up to 599. *)
Definition ok (r : Response) : bool :=
  negb ((400 <=? status_code r) && (status_code r <? 600)).

(** What one transport attempt of the adapter meets. *)
Inductive attempt_outcome : Type :=
| Answered (r : Response)
| Failed (e : exn).

(** A [newspaper.Article] after [download()]: its download state, what
    [parse()] and [nlp()] do when they are called, and the attributes they
    fill in. *)
Record Article : Type := {
  download_state : Z;
  parse_raises : option exn;
  nlp_raises : option exn;
  text : string;
  title : string;
  keywords : list string;
  tags : list string;
  meta_keywords : list string;
  html : string
}.

Record World : Type := {
  (* the k-th transport attempt for this item under these flags *)
  http_attempt : WorkItem -> bool -> bool -> nat -> attempt_outcome;
  (* newspaper.Article(url_str) followed by article.download(), which
     are taken to return: download() records a request that failed in
     the download state *)
  newspaper_Article : WorkItem -> Article;
  (* BeautifulSoup(html).find('time'), then getText(): the characters of
     the text; None when there is no tag *)
  soup_find_time : string -> option (list codepoint);
  (* dateutil.parser.parse, then str(dt.date()), str(dt.time()); or the
     exception parse raises (ParserError, OverflowError) *)
  dateutil_parse : list codepoint -> outcome (string * string)
}.

(** ** [create_session] and the adapter *)

Record Retry : Type := {
  total : Z;
  backoff_factor : Q;
  status_forcelist : list Z
}.

(** The same adapter is mounted for [http://] and [https://]. *)
Record Session : Type := { max_retries_of_adapter : Retry }.

Definition create_session (max_retries : Z) (backoff_factor : Q) : Session :=
  let retries :=
    {| total := max_retries;
       backoff_factor := backoff_factor;
       status_forcelist := [500; 502; 503; 504] |} in
  {| max_retries_of_adapter := retries |}.

(** The failures the retry policy applies to: connection-level errors. *)
Definition connection_level (e : exn) : bool := isinstance e ConnectionError.

(** The delay before the retry that follows [attempt] attempts. *)
Definition backoff_time (retries : Retry) (attempt : nat) : Q :=
  (backoff_factor retries * inject_Z (2 ^ (Z.of_nat attempt - 1)))%Q.

(** Modelled from the spec: the retry loop of the HTTP client adapter,
    which is [requests]/[urllib3] code and not part of the script.  An
    answer whose status is in [status_forcelist] and a connection-level
    error are retried while retries are left, each retry after a sleep of
    [backoff_factor * 2^(attempt-1)] seconds; with none left the error is
    raised ([RetryError] for a status).  Any other error is raised at
    once, and any other answer is returned. *)
Fixpoint send (retries : Retry) (try : nat -> attempt_outcome) (url : string)
    (retries_left : nat) (attempts_made : nat) : outcome Response * list net_event :=
  let attempt := S attempts_made in
  let again (exhausted : exn) :=
    match retries_left with
    | O => (Raise exhausted, [Attempt url])
    | S fewer =>
        let '(r, evs) := send retries try url fewer attempt in
        (r, Attempt url :: Sleep (backoff_time retries attempt) :: evs)
    end in
  match try attempts_made with
  | Answered r =>
      if bool_decide (status_code r ∈ status_forcelist retries)
      then again RetryError
      else (Return r, [Attempt url])
  | Failed e =>
      if connection_level e then again e else (Raise e, [Attempt url])
  end.

(** [session.get(url_str, allow_redirects=..., verify=...)] *)
Definition session_get (w : World) (session : Session) (url : WorkItem)
    (allow_redirects verify : bool) : M Response :=
  let retries := max_retries_of_adapter session in
  let '(r, evs) :=
    send retries (http_attempt w url allow_redirects verify) (snd url)
         (Z.to_nat (total retries)) 0 in
  network evs ;; lift r.

(** ** [get_date_time] *)

Definition get_date_time (w : World) (html : string) : outcome (string * string) :=
  match soup_find_time w html with
  | None => Raise AttributeError
  | Some time_tag =>
      let time_tag := slice time_tag 14 (-4) in
      dateutil_parse w time_tag
  end.

(** ** [get_text_from_url] *)

Definition call (raises : option exn) : M unit :=
  match raises with
  | None => ret tt
  | Some e => raise e
  end.

Definition get_text_from_url (w : World) (url : WorkItem) (session : Session)
    (allow_redirects verify : bool) : M unit :=
  let url_idx := fst url in
  let url_str := snd url in
  response <-
    try_except
      (response <- session_get w session url allow_redirects verify ;;
       ret (Some response))
      [ ([ConnectionError; InvalidSchema],
         fun e =>
           errorwriter_writerow [PyStr url_str; PyStr (class_name e)] ;;
           print ["#" +:+ str_nat url_idx +:+ ":"; class_name e; url_str] ;;
           ret None);
        ([MissingSchema; TooManyRedirects; RetryError],
         fun e =>
           errorwriter_writerow [PyStr url_str; PyStr (class_name e)] ;;
           print ["#" +:+ str_nat url_idx +:+ ":"; class_name e; url_str] ;;
           ret None) ] ;;
  match response with
  | Some response =>
      if ok response then
        let article := newspaper_Article w url in
        if download_state article =? 2 then
          call (parse_raises article) ;;
          call (nlp_raises article) ;;
          dt <- lift (get_date_time w (html article)) ;;
          let '(date, time) := dt in
          cleanwriter_writerow
            [ PyStr (text article);
              PyStr (title article);
              PyList (keywords article);
              PyStr url_str;
              PySet (tags article);
              PyList (meta_keywords article);
              PyStr date;
              PyStr time ]
        else ret tt
      else
        errorwriter_writerow [PyStr url_str; PyInt (status_code response)] ;;
        print ["#" +:+ str_nat url_idx +:+ ": Error with status code "
               +:+ str_int (status_code response) +:+ " for URL: " +:+ url_str]
  | None =>
      print [url_str +:+ " is not a valid URL"]
  end.

(** ** The queue *)

(** [queue.Queue]: the items waiting, oldest first, and the count of
    items put and not yet marked done. *)
Record Queue : Type := {
  items : list WorkItem;
  unfinished_tasks : nat
}.

Definition Queue_new : Queue := {| items := []; unfinished_tasks := 0 |}.

Definition q_put (x : WorkItem) (q : Queue) : Queue :=
  {| items := items q ++ [x]; unfinished_tasks := S (unfinished_tasks q) |}.

Definition q_empty (q : Queue) : bool :=
  match items q with
  | [] => true
  | _ :: _ => false
  end.

(** [q.get()]: [None] when the queue is empty and the caller blocks. *)
Definition q_get (q : Queue) : option (WorkItem * Queue) :=
  match items q with
  | [] => None
  | x :: rest => Some (x, {| items := rest; unfinished_tasks := unfinished_tasks q |})
  end.

(** [q.task_done()] raises [ValueError] when called once too often. *)
Definition q_task_done (q : Queue) : outcome Queue :=
  match unfinished_tasks q with
  | O => Raise ValueError
  | S n => Return {| items := items q; unfinished_tasks := n |}
  end.

(** ** [target_task]: one worker thread, step by step *)

(** A step is one statement of the loop.  A call of [get_text_from_url]
    is one step: it writes at most one row, to one file.  In the script
    another thread may run between that row and the lines printed with
    it; what is stated of a row together with its lines is therefore
    stated of the end of the run, when every call is over. *)

(** Where a worker thread stands in
    [while not q.empty(): url = q.get(); get_text_from_url(...); q.task_done()]. *)
Inductive thread : Type :=
| AtWhile                   (* about to test [not q.empty()] *)
| AtGet                     (* about to call [q.get()] *)
| AtCall (url : WorkItem)   (* holds [url], about to call [get_text_from_url] *)
| AtTaskDone                (* about to call [q.task_done()] *)
| Returned                  (* left the loop *)
| Died (e : exn).           (* ended by an exception nothing caught *)

Definition target_task (w : World) (session : Session)
    (allow_redirects verify : bool)
    (t : thread) (q : Queue) (s : io) : option (thread * Queue * io) :=
  match t with
  | AtWhile => Some (if q_empty q then Returned else AtGet, q, s)
  | AtGet =>
      match q_get q with
      | Some (url, q') => Some (AtCall url, q', s)
      | None => None
      end
  | AtCall url =>
      match get_text_from_url w url session allow_redirects verify s with
      | (s', Return _) => Some (AtTaskDone, q, s')
      | (s', Raise e) => Some (Died e, q, s')
      end
  | AtTaskDone =>
      match q_task_done q with
      | Return q' => Some (AtWhile, q', s)
      | Raise e => Some (Died e, q, s)
      end
  | Returned | Died _ => None
  end.

(** The same steps as a relation, one rule per statement of the loop. *)
Inductive moves (w : World) (session : Session) (allow_redirects verify : bool) :
    thread -> Queue -> io -> thread -> Queue -> io -> Prop :=
| moves_leave q s :
    items q = [] ->
    moves w session allow_redirects verify AtWhile q s Returned q s
| moves_enter q s :
    items q <> [] ->
    moves w session allow_redirects verify AtWhile q s AtGet q s
| moves_get q s url rest :
    items q = url :: rest ->
    moves w session allow_redirects verify AtGet q s
          (AtCall url) {| items := rest; unfinished_tasks := unfinished_tasks q |} s
| moves_call q s url s' :
    get_text_from_url w url session allow_redirects verify s = (s', Return tt) ->
    moves w session allow_redirects verify (AtCall url) q s AtTaskDone q s'
| moves_die q s url s' e :
    get_text_from_url w url session allow_redirects verify s = (s', Raise e) ->
    moves w session allow_redirects verify (AtCall url) q s (Died e) q s'
| moves_task_done q s n :
    unfinished_tasks q = S n ->
    moves w session allow_redirects verify AtTaskDone q s
          AtWhile {| items := items q; unfinished_tasks := n |} s
| moves_task_done_error q s :
    unfinished_tasks q = O ->
    moves w session allow_redirects verify AtTaskDone q s (Died ValueError) q s.

(** ** [main] *)

Record Args : Type := {
  threads : Z;         (* -t, default 100 *)
  redirects : bool;    (* -r, default False *)
  unverified : bool;   (* -u, store_false: default True *)
  max_retries : Z;     (* -m, default 0 *)
  backoff : Q          (* -b, default 0 *)
}.

(** A Python [float]: an IEEE 754 binary64 number. *)
Definition float : Type := spec_float.

(** An [int] that is not negative, as an operand of a division: its
    value, not rounded. *)
Definition operand (n : nat) : float :=
  match Z.of_nat n with
  | Zpos p => S754_finite false p 0
  | _ => S754_zero false
  end.

Record Summary : Type := {
  successful_urls : nat;
  total_urls : nat;
  success_rate : float
}.

(** [a / b] on two [int]s that are not negative: the binary64 number
    nearest to the quotient, ties to even.  (Python refuses a quotient
    of 2^1024 or more with [OverflowError]; the script divides a count
    by a count that is not smaller.) *)
Definition true_div (a b : nat) : outcome float :=
  match b with
  | O => Raise ZeroDivisionError
  | S _ => Return (SFdiv 53 1024 (operand a) (operand b))
  end.

Definition clean_header : row :=
  [PyStr "text"; PyStr "title"; PyStr "keywords"; PyStr "url"; PyStr "tags";
   PyStr "meta_tags"; PyStr "date"; PyStr "time"].

Definition error_header : row := [PyStr "url"; PyStr "error"].

(** Where the main thread stands: in the loop that starts the threads,
    with some still to start ([Starting 0] is [q.join()]), or out of
    [main], normally or by an exception. *)
Inductive main_thread : Type :=
| Starting (to_start : nat)
| Exited (r : outcome Summary).

Record state : Type := {
  shared : io;
  q : Queue;
  pool : list thread;
  main_pc : main_thread
}.

(** [for i in range(total_urls): q.put((i, urls[i]))] *)
Definition fill (urls : list string) : Queue :=
  fold_left (fun q i => q_put (i, nth i urls "") q) (seq 0 (length urls)) Queue_new.

(** [main] up to the loop that starts the threads: the two files are
    opened, the headers written, the queue filled. *)
Definition main_setup (args : Args) (urls : list string) : state :=
  let total_urls := length urls in
  let opened := {| cleanfile := []; errorfile := []; stdout := []; net := [] |} in
  let headers := cleanwriter_writerow clean_header ;; errorwriter_writerow error_header in
  let threads := Z.min (threads args) (Z.of_nat total_urls) in
  {| shared := fst (headers opened);
     q := fill urls;
     pool := [];
     main_pc := Starting (Z.to_nat threads) |}.

Definition newline : string := String (ascii_of_nat 10) EmptyString.

Definition complete_line : string :=
  newline +:+ "Newspaper scrape is complete." +:+ newline.

(** [main] after [q.join()].  The last [print], whose text holds the
    elapsed time and two rounded floats, is left out; its numbers are in
    the [Summary]. *)
Definition main_report (total_urls : nat) : M Summary :=
  successful_urls <- clean_up_output ;;
  success_rate <- lift (true_div successful_urls total_urls) ;;
  print [complete_line] ;;
  ret {| successful_urls := successful_urls;
         total_urls := total_urls;
         success_rate := success_rate |}.

Section Run.

Variable w : World.
Variable args : Args.
Variable urls : list string.

Definition session : Session := create_session (max_retries args) (backoff args).

(** One step of the main thread: start the next thread, or, in
    [q.join()], go on once every task is done. *)
Definition main_step (st : state) : option state :=
  match main_pc st with
  | Starting (S k) =>
      Some {| shared := shared st; q := q st;
              pool := pool st ++ [AtWhile];
              main_pc := Starting k |}
  | Starting O =>
      if Nat.eqb (unfinished_tasks (q st)) 0 then
        let '(s', r) := main_report (length urls) (shared st) in
        Some {| shared := s'; q := q st; pool := pool st; main_pc := Exited r |}
      else None
  | Exited _ => None
  end.

(** One step of the [i]-th thread.  The threads are daemons: they stop
    with the main thread. *)
Definition worker_step (i : nat) (st : state) : option state :=
  match main_pc st with
  | Exited _ => None
  | Starting _ =>
      match pool st !! i with
      | None => None
      | Some t =>
          match target_task w session (redirects args) (unverified args)
                            t (q st) (shared st) with
          | None => None
          | Some (t', q', s') =>
              Some {| shared := s'; q := q'; pool := <[i := t']> (pool st);
                      main_pc := main_pc st |}
          end
      end
  end.

Inductive actor : Type := Main | Worker (i : nat).

Definition act (a : actor) (st : state) : option state :=
  match a with
  | Main => main_step st
  | Worker i => worker_step i st
  end.

(** The threads interleave in any order. *)
Definition step (st st' : state) : Prop := exists a, act a st = Some st'.

Inductive reachable : state -> Prop :=
| reachable_setup : reachable (main_setup args urls)
| reachable_step st st' : reachable st -> step st st' -> reachable st'.

(** Nobody can move: the process has exited, or every thread is blocked
    or gone. *)
Definition stuck (st : state) : Prop := forall a, act a st = None.

(** Running a given schedule; an actor that cannot move is skipped. *)
Fixpoint run (schedule : list actor) (st : state) : state :=
  match schedule with
  | [] => st
  | a :: rest =>
      match act a st with
      | Some st' => run rest st'
      | None => run rest st
      end
  end.

End Run.

(** ** Notions used in the statements *)

(** The rows of a file below its header. *)
Definition data_rows (file : csvfile) : list row := tail file.

(** The cell of row [r] in the column the header of [file] calls [name]. *)
Definition cell (name : string) (file : csvfile) (r : row) : option value :=
  match file with
  | [] => None
  | h :: _ =>
      match column_index name h with
      | None => None
      | Some i => r !! i
      end
  end.

Definition cell_str (name : string) (file : csvfile) (r : row) : string :=
  match cell name file r with
  | Some (PyStr s) => s
  | _ => ""
  end.

(** The [url] column of a file. *)
Definition urls_of (file : csvfile) : list string :=
  map (cell_str "url" file) (data_rows file).

(** A row whose [text] cell is a non-empty string. *)
Definition has_text (file : csvfile) (r : row) : Prop :=
  exists s, cell "text" file r = Some (PyStr s) /\ s <> "".

(** The rows [clean_up_output] keeps: those whose [text] cell, the first
    of the row, is not read back as missing. *)
Definition kept (rows : list row) : list row :=
  List.filter (fun r => negb (cell_isna 0 r)) rows.

Definition cnt (P : string -> bool) (l : list string) : nat :=
  length (List.filter P l).



(** The exception is one that the two [except] clauses of
    [get_text_from_url] name. *)
Definition caught (e : exn) : bool :=
  except [ConnectionError; InvalidSchema] e
  || except [MissingSchema; TooManyRedirects; RetryError] e.

(** The two lines [get_text_from_url] prints for a caught exception, and
    the line it prints for a status that is not ok. *)
Definition caught_line (url : WorkItem) (e : exn) : string :=
  String.concat " " ["#" +:+ str_nat (fst url) +:+ ":"; class_name e; snd url].

Definition invalid_line (url : WorkItem) : string :=
  snd url +:+ " is not a valid URL".

Definition status_line (url : WorkItem) (r : Response) : string :=
  "#" +:+ str_nat (fst url) +:+ ": Error with status code "
  +:+ str_int (status_code r) +:+ " for URL: " +:+ snd url.

(** The row [get_text_from_url] writes for an extracted article. *)
Definition clean_row (url : WorkItem) (article : Article) (date time : string) : row :=
  [ PyStr (text article); PyStr (title article); PyList (keywords article);
    PyStr (snd url); PySet (tags article); PyList (meta_keywords article);
    PyStr date; PyStr time ].

(** The status is neither 2xx nor 3xx. *)
Definition non_2xx_3xx (r : Response) : bool :=
  negb ((200 <=? status_code r) && (status_code r <? 400)).

(** What the retry policy calls a transient failure of an attempt. *)
Definition transient (retries : Retry) (o : attempt_outcome) : bool :=
  match o with
  | Answered r => bool_decide (status_code r ∈ status_forcelist retries)
  | Failed e => connection_level e
  end.

(** The exception [session.get] ends with when a transient failure is
    not retried. *)
Definition exhausted (o : attempt_outcome) : exn :=
  match o with
  | Answered _ => RetryError
  | Failed e => e
  end.

(** Sums over the threads of the pool. *)
Definition total_of (f : thread -> nat) (pool : list thread) : nat :=
  list_sum (map f pool).

(** A thread that took an item off the queue and has not marked it done. *)
Definition owed (t : thread) : nat :=
  match t with
  | AtCall _ | AtTaskDone | Died _ => 1
  | _ => 0
  end.

Definition holds (P : string -> bool) (t : thread) : nat :=
  match t with
  | AtCall url => if P (snd url) then 1 else 0
  | _ => 0
  end.

Definition rank (t : thread) : nat :=
  match t with
  | AtCall _ => 4
  | AtTaskDone => 3
  | AtWhile => 2
  | AtGet => 1
  | Returned | Died _ => 0
  end.

Definition to_start (st : state) : nat :=
  match main_pc st with
  | Starting k => k
  | Exited _ => 0
  end.

(** A bound on the number of steps the process can still take. *)
Definition measure (st : state) : nat :=
  3 * to_start st + 4 * length (items (q st)) + total_of rank (pool st)
  + match main_pc st with Starting _ => 1 | Exited _ => 0 end.

(** The shape [get_text_from_url] gives a row of the clean file. *)
Definition clean_shape (url_str : string) (r : row) : Prop :=
  exists text title keywords tags meta_keywords date time,
    r = [PyStr text; PyStr title; PyList keywords; PyStr url_str;
         PySet tags; PyList meta_keywords; PyStr date; PyStr time].

Definition error_shape (url_str : string) (r : row) : Prop :=
  exists reason, r = [PyStr url_str; reason].

(** What holds of every state a run can reach. *)
Record invariant (args : Args) (urls : list string) (st : state) : Prop := {
  inv_clean :
    exists rows, cleanfile (shared st) = clean_header :: rows
                 /\ Forall (fun r => exists u, clean_shape u r) rows;
  inv_error :
    exists rows, errorfile (shared st) = error_header :: rows
                 /\ Forall (fun r => exists u, error_shape u r) rows;
  inv_count :
    forall P,
      (cnt P (urls_of (cleanfile (shared st)))
       + cnt P (urls_of (errorfile (shared st)))
       + cnt P (map snd (items (q st)))
       + total_of (holds P) (pool st) <= cnt P urls)%nat;
  inv_pool :
    (length (pool st) + to_start st)%nat
    = Z.to_nat (Z.min (threads args) (Z.of_nat (length urls)));
  inv_returned : In Returned (pool st) -> items (q st) = [];
  inv_unfinished :
    unfinished_tasks (q st)
    = (length (items (q st)) + total_of owed (pool st))%nat;
  inv_bound : (unfinished_tasks (q st) <= length urls)%nat;
  inv_exited : forall r, main_pc st = Exited r -> unfinished_tasks (q st) = O;
  inv_reconciled :
    forall r, main_pc st = Exited r ->
      Forall (has_text (cleanfile (shared st))) (data_rows (cleanfile (shared st)))
      /\ forall summary, r = Return summary ->
           successful_urls summary = length (data_rows (cleanfile (shared st)))
           /\ total_urls summary = length urls
}.



(** ** A sample world *)

Module Sample.

Definition page : string := "https://valid.example/page".
Definition not_a_url : string := "not-a-url".
Definition missing : string := "https://valid.example/404".
Definition no_time : string := "https://valid.example/no-time".
Definition paywall : string := "https://valid.example/paywall".
Definition down : string := "https://down.example/".
Definition broken : string := "https://valid.example/500".
Definition upgrade : string := "https://valid.example/101".
Definition flaky : string := "https://flaky.example/".

Definition page_html : string :=
  "<html><time>Published on: 2019-03-04 10:11:12 EST</time></html>".

(** What the servers answer.  [flaky] answers the first item that asks
    and refuses the connection afterwards. *)
Definition attempt (url : WorkItem) (allow_redirects verify : bool) (k : nat)
    : attempt_outcome :=
  let u := snd url in
  if String.eqb u not_a_url then Failed MissingSchema
  else if String.eqb u missing then Answered {| status_code := 404 |}
  else if String.eqb u down then Failed ConnectionError
  else if String.eqb u broken then Answered {| status_code := 500 |}
  else if String.eqb u upgrade then Answered {| status_code := 101 |}
  else if String.eqb u flaky && negb (Nat.eqb (fst url) 0) then Failed ConnectionError
  else Answered {| status_code := 200 |}.

Definition article (url : WorkItem) : Article :=
  let u := snd url in
  {| download_state :=
       if String.eqb u paywall || String.eqb u upgrade then 1 else 2;
     parse_raises := None;
     nlp_raises := None;
     text := "Body of " +:+ u;
     title := "Title";
     keywords := ["body"];
     tags := [];
     meta_keywords := [];
     html := if String.eqb u no_time then "<html></html>" else page_html |}.

Definition world : World :=
  {| http_attempt := attempt;
     newspaper_Article := article;
     soup_find_time := fun html =>
       if String.eqb html page_html
       then Some (chars "Published on: 2019-03-04 10:11:12 EST")
       else None;
     dateutil_parse := fun s =>
       if bool_decide (s = chars "2019-03-04 10:11:12")
       then Return ("2019-03-04", "10:11:12")
       else Raise ParserError |}.

(** The options when none is given on the command line. *)
Definition defaults : Args :=
  {| threads := 100; redirects := false; unverified := true;
     max_retries := 0; backoff := 0 |}.

(** Every thread in turn, [n] times over. *)
Fixpoint round_robin (workers : nat) (n : nat) : list actor :=
  match n with
  | O => []
  | S n' => map Worker (seq 0 workers) ++ round_robin workers n'
  end.

(** Start every thread, let each run to its end, then join. *)
Definition schedule (workers : nat) : list actor :=
  repeat Main workers ++ round_robin workers 5 ++ [Main].

(** The scenario of the specification. *)
Definition scenario : list string := [page; not_a_url; missing].

Definition scenario_end : state :=
  run world defaults scenario (schedule 3) (main_setup defaults scenario).

(** One page without a [<time>] element. *)
Definition no_time_end : state :=
  run world defaults [no_time] (schedule 1) (main_setup defaults [no_time]).

(** One page that answers 200 and that [newspaper] fails to download. *)
Definition paywall_end : state :=
  run world defaults [paywall] (schedule 1) (main_setup defaults [paywall]).


(** A negative number of threads on the command line. *)
Definition negative : Args :=
  {| threads := -1; redirects := false; unverified := true;
     max_retries := 0; backoff := 0 |}.

(** What holds all along the run on [no_time]: the one task is never
    marked done. *)
Definition hung (st : state) : Prop :=
  unfinished_tasks (q st) = 1%nat
  /\ data_rows (errorfile (shared st)) = []
  /\ stdout (shared st) = []
  /\ Forall (fun url => snd url = no_time) (items (q st))
  /\ Forall (fun t => t <> AtTaskDone
                      /\ forall url, t = AtCall url -> snd url = no_time)
            (pool st)
  /\ exists k, main_pc st = Starting k.

End Sample.

(** ** Further notions, for the properties beyond the sample runs *)

(** The first of [article.parse()], [article.nlp()] and [get_date_time]
    to raise, if any does. *)
Definition extraction_error (w : World) (url : WorkItem) : option exn :=
  let article := newspaper_Article w url in
  match parse_raises article, nlp_raises article with
  | Some e, _ => Some e
  | None, Some e => Some e
  | None, None =>
      match get_date_time w (html article) with
      | Raise e => Some e
      | Return _ => None
      end
  end.

(** An element [(i, urls[i])] of the queue [main] fills. *)
Definition item_of (urls : list string) (url : WorkItem) : Prop :=
  urls !! fst url = Some (snd url).

(** A row of the error file with the lines [get_text_from_url] printed
    when it wrote it: the row of a caught exception, or the row of a
    status that is not ok, for an item of the input. *)
Definition logged (urls : list string) (out : list string) (r : row) : Prop :=
  exists url,
    item_of urls url
    /\ ((exists e,
           caught e = true
           /\ r = [PyStr (snd url); PyStr (class_name e)]
           /\ In (caught_line url e) out
           /\ In (invalid_line url) out)
        \/ (exists response,
              ok response = false
              /\ r = [PyStr (snd url); PyInt (status_code response)]
              /\ In (status_line url response) out)).

(** A file of two columns or more whose rows are as wide as its header:
    what [csv.writer] leaves when every [writerow] is handed as many
    cells as the first, and at least two.  Every line of such a file
    holds a comma, so that [pandas] takes none for a blank line, and no
    row is longer than the header. *)
Definition rectangular (file : csvfile) : Prop :=
  match file with
  | [] => True
  | h :: rows =>
      (2 <= length h)%nat /\ Forall (fun r => length r = length h) rows
  end.

(** The [text] cell of a row reads back as missing. *)
Definition text_missing (file : csvfile) (r : row) : bool :=
  match cell "text" file r with
  | Some v => isna v
  | None => true
  end.

(** A thread that holds no task: it is at the loop test, in [q.get()],
    or out of the loop. *)
Definition idle (t : thread) : Prop :=
  t = AtWhile \/ t = AtGet \/ t = Returned.

(** What holds of every reachable state about the items and the lines. *)
Definition traced (urls : list string) (st : state) : Prop :=
  Forall (item_of urls) (items (q st))
  /\ Forall (fun t => forall url, t = AtCall url -> item_of urls url) (pool st)
  /\ Forall (logged urls (stdout (shared st))) (data_rows (errorfile (shared st))).

(** ** More sample inputs *)

Module More.

(** A world whose pages carry a [<time>] element with a short text:
    eighteen characters, of which the first eleven are not ASCII (the
    letter e with an acute accent, code point 233). *)
Definition short_time : World :=
  {| http_attempt := Sample.attempt;
     newspaper_Article := Sample.article;
     soup_find_time := fun _ => Some (repeat 233%N 11 ++ chars "1234567");
     dateutil_parse := fun s =>
       match s with
       | [] => Raise ParserError
       | _ => Return ("2019-03-04", "10:11:12")
       end |}.

(** A world whose pages carry a number too large for a date. *)
Definition large_number : World :=
  {| http_attempt := Sample.attempt;
     newspaper_Article := Sample.article;
     soup_find_time := fun _ =>
       Some (chars "Published on: 99999999999999999999 EST");
     dateutil_parse := fun s =>
       if bool_decide (s = chars "99999999999999999999")
       then Raise OverflowError
       else Raise ParserError |}.

(** A clean file after a run: one article, one page without text, one
    page whose text is the two letters NA. *)
Definition three_rows : io :=
  let row text url :=
    [PyStr text; PyStr "Title"; PyList []; PyStr url; PySet []; PyList [];
     PyStr "2019-03-04"; PyStr "10:11:12"] in
  {| cleanfile := [clean_header; row "Body" "u1"; row "" "u2"; row "NA" "u3"];
     errorfile := [error_header];
     stdout := [];
     net := [] |}.

(** A file whose header has no [text] column, and an empty file. *)
Definition no_text_column : io :=
  {| cleanfile := [[PyStr "title"; PyStr "url"]; [PyStr "Title"; PyStr "u1"]];
     errorfile := [error_header]; stdout := []; net := [] |}.

Definition empty_file : io :=
  {| cleanfile := []; errorfile := [error_header]; stdout := []; net := [] |}.

End More.

(** ** Paths and the input file

    What [parse_input_file] and [create_output_filename] use of [str],
    [os.path] and [pathlib], for POSIX paths. *)

(** [c in s] *)
Fixpoint contains (c : ascii) (s : string) : bool :=
  match s with
  | EmptyString => false
  | String a s' => Ascii.eqb a c || contains c s'
  end.

(** [s.split(c)]: the pieces of [s] between the occurrences of [c]. *)
Fixpoint split_on (c : ascii) (s : string) : list string :=
  match s with
  | EmptyString => [EmptyString]
  | String a s' =>
      if Ascii.eqb a c then EmptyString :: split_on c s'
      else
        match split_on c s' with
        | piece :: rest => String a piece :: rest
        | [] => [String a EmptyString]
        end
  end.

(** [os.path.basename(p)]: what follows the last slash. *)
Definition basename (p : string) : string :=
  List.last (split_on "/" p) EmptyString.

Fixpoint lstrip_dots (s : string) : string :=
  match s with
  | String "." s' => lstrip_dots s'
  | _ => s
  end.

(** [os.path.splitext(p)]: the extension starts at the last dot of the
    base name, leading dots of the base name apart; without such a dot
    it is empty. *)
Definition splitext (p : string) : string * string :=
  let rest := lstrip_dots (basename p) in
  if contains "." rest then
    let ext := String "." (List.last (split_on "." rest) EmptyString) in
    (substring 0 (String.length p - String.length ext) p, ext)
  else (p, EmptyString).

(** The operating system and the readers, as [parse_input_file] and
    [create_output_filename] see them: [os.getcwd()],
    [os.path.abspath], [list(pd.read_excel(...).iloc[:, 0])] and
    [open(...).read().splitlines()]. *)
Record OS : Type := {
  os_getcwd : string;
  os_path_abspath : string -> string;
  read_excel_first_column : string -> outcome (list string);
  read_splitlines : string -> outcome (list string)
}.

(** [raise Exception(...)] *)
Definition Exception : exn := OtherError "Exception".

Definition parse_input_file (os : OS) (filepath : string)
    : outcome (list string * string) :=
  let abspath := os_path_abspath os filepath in
  let '(_, ext) := splitext abspath in
  let name := hd EmptyString (split_on "." (basename abspath)) in
  if String.eqb ext ".xlsx" || String.eqb ext ".xls" then
    match read_excel_first_column os abspath with
    | Return urls => Return (urls, name)
    | Raise e => Raise e
    end
  else if String.eqb ext ".csv" || String.eqb ext ".txt" then
    match read_splitlines os abspath with
    | Return urls => Return (urls, name)
    | Raise e => Raise e
    end
  else Raise Exception.

(** A [pathlib.PurePosixPath]: its anchor (empty, one slash or two) and
    its parts. *)
Record PurePath : Type := {
  anchor : string;
  parts : list string
}.

(** One or two leading slashes are kept as they are; three or more count
    as one. *)
Definition anchor_of (s : string) : string :=
  match s with
  | String "/" (String "/" (String "/" _)) => "/"
  | String "/" (String "/" _) => "//"
  | String "/" _ => "/"
  | _ => EmptyString
  end.

(** Empty components and single dots are dropped. *)
Definition parts_of (s : string) : list string :=
  List.filter (fun p => negb (String.eqb p "") && negb (String.eqb p "."))
              (split_on "/" s).

(** [PurePath(s)] *)
Definition PurePath_of (s : string) : PurePath :=
  {| anchor := anchor_of s; parts := parts_of s |}.

(** [p / s]: an absolute [s] replaces [p]. *)
Definition joinpath (p : PurePath) (s : string) : PurePath :=
  if String.eqb (anchor_of s) "" then
    {| anchor := anchor p; parts := parts p ++ parts_of s |}
  else PurePath_of s.

(** [str(p)] *)
Definition path_str (p : PurePath) : string :=
  match anchor p, parts p with
  | EmptyString, [] => "."
  | a, ps => a +:+ String.concat "/" ps
  end.

Definition create_output_filename (os : OS) (name : string) : string * string :=
  let path := PurePath_of (os_getcwd os) in
  let output_name_clean :=
    path_str (joinpath (joinpath path "exports") (name +:+ "-contents.csv")) in
  let output_name_error :=
    path_str (joinpath (joinpath path "exports") (name +:+ "-error.csv")) in
  (output_name_clean, output_name_error).

Module Files.

(** A machine where the script is run from [/home/user/scrape]; a path
    that is not absolute is taken from there, and every file holds the
    same two lines. *)
Definition os : OS :=
  {| os_getcwd := "/home/user/scrape";
     os_path_abspath := fun p =>
       match p with
       | String "/" _ => p
       | _ => "/home/user/scrape/" +:+ p
       end;
     read_excel_first_column := fun _ => Return [Sample.page; Sample.missing];
     read_splitlines := fun _ => Return [Sample.page; Sample.missing] |}.

End Files.

(** * Properties *)

(** ** The model on small inputs *)

Example str_int_404 : str_int 404 = "404" /\ str_int (-5) = "-5" /\ str_nat 0 = "0".
Proof. repeat split. Qed.

Example slice_time_tag :
  slice (chars "Published on: 2019-03-04 10:11:12 EST") 14 (-4)
    = chars "2019-03-04 10:11:12"
  /\ slice (chars "short") 14 (-4) = [].
Proof. split; reflexivity. Qed.

(** The quotient of two [int]s is a float: 1/3 is 0.3333333333333333,
    that is 6004799503160661 * 2^-54, and 1/10 is
    0.1000000000000000055511151231257827, that is
    7205759403792794 * 2^-56. *)
Example true_div_rounds :
  true_div 1 3 = Return (S754_finite false 6004799503160661 (-54))
  /\ true_div 1 10 = Return (S754_finite false 7205759403792794 (-56))
  /\ true_div 0 3 = Return (S754_zero false)
  /\ true_div 3 3 = Return (S754_finite false 4503599627370496 (-52))
  /\ true_div 0 0 = Raise ZeroDivisionError.
Proof. repeat split. Qed.

Example except_subclass :
  except [ConnectionError; InvalidSchema] SSLError = true
  /\ except [ConnectionError; InvalidSchema] InvalidURL = false
  /\ caught ReadTimeout = false.
Proof. repeat split. Qed.

Example ok_by_status :
  map (fun c => ok {| status_code := c |}) [200; 301; 399; 400; 404; 503; 599; 600]
  = [true; true; true; false; false; false; false; true].
Proof. reflexivity. Qed.

(** Three retries with a back-off factor of 1/2 against a server that
    refuses every connection: four attempts, with sleeps of 1/2, 1 and 2
    seconds between them. *)
Example send_backs_off :
  send (max_retries_of_adapter (create_session 3 (1 # 2)))
       (fun _ => Failed ConnectionError) "u" 3 0
  = (Raise ConnectionError,
     [Attempt "u"; Sleep ((1 # 2) * inject_Z 1); Attempt "u";
      Sleep ((1 # 2) * inject_Z 2); Attempt "u";
      Sleep ((1 # 2) * inject_Z 4); Attempt "u"]).
Proof. reflexivity. Qed.

(** A page that [newspaper] fails to download leaves no trace: no row,
    no line, and a summary of no success out of one. *)
Example paywall_run :
  shared Sample.paywall_end
  = {| cleanfile := [clean_header]; errorfile := [error_header];
       stdout := [complete_line];
       net := [Attempt Sample.paywall] |}
  /\ main_pc Sample.paywall_end
     = Exited (Return {| successful_urls := 0; total_urls := 1;
                         success_rate := S754_zero false |}).
Proof. split; reflexivity. Qed.

(** The scenario of the specification: one clean row, two error rows, one
    success out of three. *)
Example scenario_run :
  urls_of (cleanfile (shared Sample.scenario_end)) = [Sample.page]
  /\ data_rows (errorfile (shared Sample.scenario_end))
     = [[PyStr "not-a-url"; PyStr "MissingSchema"];
        [PyStr "https://valid.example/404"; PyInt 404]]
  /\ main_pc Sample.scenario_end
     = Exited (Return {| successful_urls := 1; total_urls := 3;
                         success_rate :=
                           S754_finite false 6004799503160661 (-54) |}).
Proof. repeat split. Qed.

(** A row whose text is read back as missing is dropped. *)
Example clean_up_output_drops :
  let row text := [PyStr text; PyStr "t"; PyList []; PyStr "u"; PySet [];
                   PyList []; PyStr "d"; PyStr "t"] in
  let s := {| cleanfile := [clean_header; row "body"; row ""; row "NA"];
              errorfile := [error_header]; stdout := []; net := [] |} in
  clean_up_output s
  = (replace_clean [clean_header; row "body"] s, Return 1%nat).
Proof. reflexivity. Qed.

(** ** What one call of [get_text_from_url] does *)

Section Call.

Variable w : World.
Variable url : WorkItem.
Variable session : Session.
Variables allow_redirects verify : bool.

Local Abbreviation get := (session_get w session url allow_redirects verify).
Local Abbreviation call_it := (get_text_from_url w url session allow_redirects verify).

(** [session.get] only touches the network. *)
Lemma session_get_eq s :
  get s =
    let '(r, evs) :=
      send (max_retries_of_adapter session)
           (http_attempt w url allow_redirects verify) (snd url)
           (Z.to_nat (total (max_retries_of_adapter session))) 0 in
    (append_net evs s, r).
Proof.
  unfold session_get. destruct (send _ _ _ _ _) as [r evs].
  reflexivity.
Qed.

Lemma session_get_files s s' r :
  get s = (s', r) ->
  cleanfile s' = cleanfile s /\ errorfile s' = errorfile s
  /\ stdout s' = stdout s.
Proof.
  rewrite session_get_eq. destruct (send _ _ _ _ _) as [r0 evs].
  intros [= <- <-]. simpl. auto.
Qed.

(** An exception of [session.get] that one of the two clauses names: a
    row in the error file, two lines, and the call returns. *)
Lemma call_caught s s1 e :
  get s = (s1, Raise e) -> caught e = true ->
  call_it s =
    (append_stdout (invalid_line url)
       (append_stdout (caught_line url e)
          (append_error [PyStr (snd url); PyStr (class_name e)] s1)),
     Return tt).
Proof.
  intros Hget Hc. unfold get_text_from_url, try_except, bind.
  rewrite Hget. unfold caught in Hc. cbn [handle].
  destruct (except [ConnectionError; InvalidSchema] e); [reflexivity|].
  rewrite orb_false_l in Hc. cbn [handle]. rewrite Hc. reflexivity.
Qed.

(** Any other exception of [session.get] leaves the call. *)
Lemma call_uncaught s s1 e :
  get s = (s1, Raise e) -> caught e = false ->
  call_it s = (s1, Raise e).
Proof.
  intros Hget Hc. unfold get_text_from_url, try_except, bind.
  rewrite Hget. unfold caught in Hc. cbn [handle].
  apply orb_false_elim in Hc as [-> ->]. reflexivity.
Qed.

(** A response that is not ok: a row in the error file and one line. *)
Lemma call_status s s1 response :
  get s = (s1, Return response) -> ok response = false ->
  call_it s =
    (append_stdout (status_line url response)
       (append_error [PyStr (snd url); PyInt (status_code response)] s1),
     Return tt).
Proof.
  intros Hget Hok. unfold get_text_from_url, try_except, bind.
  rewrite Hget. cbn [ret]. rewrite Hok. reflexivity.
Qed.

(** An ok response whose article is not downloaded: nothing at all. *)
Lemma call_not_downloaded s s1 response :
  get s = (s1, Return response) -> ok response = true ->
  download_state (newspaper_Article w url) <> 2 ->
  call_it s = (s1, Return tt).
Proof.
  intros Hget Hok Hstate. unfold get_text_from_url, try_except, bind.
  rewrite Hget. cbn [ret]. rewrite Hok.
  apply Z.eqb_neq in Hstate. rewrite Hstate. reflexivity.
Qed.

(** An ok response whose article is downloaded: the first of [parse],
    [nlp] and [get_date_time] to raise ends the call; if none does, a row
    goes to the clean file. *)
Lemma call_downloaded s s1 response :
  get s = (s1, Return response) -> ok response = true ->
  download_state (newspaper_Article w url) = 2 ->
  call_it s =
    let article := newspaper_Article w url in
    match parse_raises article, nlp_raises article with
    | Some e, _ => (s1, Raise e)
    | None, Some e => (s1, Raise e)
    | None, None =>
        match get_date_time w (html article) with
        | Raise e => (s1, Raise e)
        | Return (date, time) =>
            (append_clean (clean_row url article date time) s1, Return tt)
        end
    end.
Proof.
  intros Hget Hok Hstate. unfold get_text_from_url, try_except, bind.
  rewrite Hget. cbn [ret]. rewrite Hok.
  apply Z.eqb_eq in Hstate. rewrite Hstate. cbn zeta.
  destruct (parse_raises _); [reflexivity|].
  destruct (nlp_raises _); [reflexivity|].
  cbn [call ret lift].
  destruct (get_date_time _ _) as [[date time]|e]; reflexivity.
Qed.

Lemma clean_row_shape article date time :
  clean_shape (snd url) (clean_row url article date time).
Proof. unfold clean_shape, clean_row. eauto 10. Qed.

(** One call appends at most one row over the two files, and the row
    carries the URL of the item. *)
Lemma get_text_from_url_rows s s' r :
  call_it s = (s', r) ->
  (cleanfile s' = cleanfile s /\ errorfile s' = errorfile s)
  \/ (exists row, clean_shape (snd url) row
        /\ cleanfile s' = cleanfile s ++ [row]
        /\ errorfile s' = errorfile s /\ r = Return tt)
  \/ (exists row, error_shape (snd url) row
        /\ errorfile s' = errorfile s ++ [row]
        /\ cleanfile s' = cleanfile s /\ r = Return tt).
Proof.
  destruct (get s) as [s1 [response|e]] eqn:Hget;
    destruct (session_get_files _ _ _ Hget) as (Hc & He & _).
  - destruct (ok response) eqn:Hok.
    + destruct (Z.eq_dec (download_state (newspaper_Article w url)) 2) as [H2|H2].
      * rewrite (call_downloaded _ _ _ Hget Hok H2). cbn zeta.
        destruct (parse_raises _); [intros [= <- <-]; auto|].
        destruct (nlp_raises _); [intros [= <- <-]; auto|].
        destruct (get_date_time _ _) as [[date time]|e];
          intros [= <- <-]; [|auto].
        right; left. eexists; split; [apply clean_row_shape|].
        simpl. rewrite Hc, He. auto.
      * rewrite (call_not_downloaded _ _ _ Hget Hok H2).
        intros [= <- <-]; auto.
    + rewrite (call_status _ _ _ Hget Hok). intros [= <- <-].
      right; right. eexists; split; [eexists; reflexivity|].
      simpl. rewrite Hc, He. auto.
  - destruct (caught e) eqn:Hcaught.
    + rewrite (call_caught _ _ _ Hget Hcaught). intros [= <- <-].
      right; right. eexists; split; [eexists; reflexivity|].
      simpl. rewrite Hc, He. auto.
    + rewrite (call_uncaught _ _ _ Hget Hcaught). intros [= <- <-]; auto.
Qed.

End Call.

(** ** Lists, sums and counts *)

Lemma total_of_app f l t : total_of f (l ++ [t]) = (total_of f l + f t)%nat.
Proof.
  unfold total_of. rewrite map_app, list_sum_app. simpl. lia.
Qed.

Lemma total_of_insert f (l : list thread) i t t' :
  l !! i = Some t ->
  (total_of f (<[i := t']> l) + f t = total_of f l + f t')%nat.
Proof.
  unfold total_of. revert i. induction l as [|x l IH]; intros [|i] H;
    simplify_eq/=; [lia|]. specialize (IH _ H). lia.
Qed.

Lemma total_of_all f (l : list thread) n :
  Forall (fun t => f t = n) l -> total_of f l = (n * length l)%nat.
Proof.
  unfold total_of. induction 1 as [|t l Ht _ IH]; simpl; [lia|].
  rewrite IH, Ht. lia.
Qed.

Lemma total_of_In f (l : list thread) t :
  In t l -> (f t <= total_of f l)%nat.
Proof.
  unfold total_of. induction l as [|x l IH]; simpl; [tauto|].
  intros [->|H]; [lia|]. specialize (IH H). lia.
Qed.

Lemma In_insert (l : list thread) i t x :
  In x (<[i := t]> l) -> x = t \/ In x l.
Proof.
  revert i. induction l as [|y l IH]; intros [|i]; simpl; try tauto.
  - intros [->|H]; auto.
  - intros [->|H]; auto. destruct (IH _ H); auto.
Qed.

Lemma cnt_app P l l' : cnt P (l ++ l') = (cnt P l + cnt P l')%nat.
Proof. unfold cnt. now rewrite List.filter_app, length_app. Qed.

Lemma cnt_nil P : cnt P [] = O.
Proof. reflexivity. Qed.

Lemma cnt_cons P x l :
  cnt P (x :: l) = ((if P x then 1 else 0) + cnt P l)%nat.
Proof. unfold cnt. simpl. now destruct (P x). Qed.

Lemma cnt_one P x : (cnt P [x] <= 1)%nat.
Proof. rewrite cnt_cons. unfold cnt. simpl. destruct (P x); lia. Qed.

Lemma cnt_map_filter {A} P (f : A -> string) g (l : list A) :
  (cnt P (map f (List.filter g l)) <= cnt P (map f l))%nat.
Proof.
  induction l as [|x l IH]; simpl; [lia|].
  destruct (g x); rewrite ?map_cons, !cnt_cons; lia.
Qed.


Lemma map_nth_seq (pre l : list string) d :
  map (fun i => nth i (pre ++ l) d) (seq (length pre) (length l)) = l.
Proof.
  revert pre. induction l as [|x l IH]; intros pre; [reflexivity|].
  simpl. rewrite nth_middle. f_equal.
  specialize (IH (pre ++ [x])).
  rewrite <- app_assoc, length_app, Nat.add_1_r in IH. exact IH.
Qed.

(** ** The queue after [main] has filled it *)

Lemma fill_fold f l q0 :
  let q' := fold_left (fun q i => q_put (i, f i) q) l q0 in
  items q' = items q0 ++ map (fun i => (i, f i)) l
  /\ unfinished_tasks q' = (unfinished_tasks q0 + length l)%nat.
Proof.
  revert q0. induction l as [|i l IH]; intros q0; simpl.
  - rewrite app_nil_r. split; [reflexivity | lia].
  - destruct (IH (q_put (i, f i) q0)) as [H1 H2]. simpl in *.
    rewrite H1, H2, <- app_assoc. split; [reflexivity | lia].
Qed.

Lemma fill_urls urls : map snd (items (fill urls)) = urls.
Proof.
  unfold fill.
  destruct (fill_fold (fun i => nth i urls "") (seq 0 (length urls)) Queue_new)
    as [-> _].
  simpl. rewrite map_map. simpl. apply (map_nth_seq [] urls).
Qed.

Lemma fill_length urls : length (items (fill urls)) = length urls.
Proof. rewrite <- (fill_urls urls) at 2. now rewrite length_map. Qed.

Lemma fill_unfinished urls : unfinished_tasks (fill urls) = length urls.
Proof.
  unfold fill.
  destruct (fill_fold (fun i => nth i urls "") (seq 0 (length urls)) Queue_new)
    as [_ ->].
  simpl. now rewrite length_seq.
Qed.

(** ** [target_task] and its rules *)

Lemma target_task_moves w session ar v t q s t' q' s' :
  target_task w session ar v t q s = Some (t', q', s') ->
  moves w session ar v t q s t' q' s'.
Proof.
  destruct t; simpl.
  - unfold q_empty. destruct (items q) eqn:E; intros [= <- <- <-].
    + now apply moves_leave.
    + apply moves_enter. now rewrite E.
  - unfold q_get. destruct (items q) eqn:E; intros [= <- <- <-].
    now apply moves_get.
  - destruct (get_text_from_url _ _ _ _ _ _) as [s1 [[]|e]] eqn:E;
      intros [= <- <- <-].
    + now apply moves_call.
    + now apply moves_die.
  - unfold q_task_done. destruct (unfinished_tasks q) eqn:E;
      intros [= <- <- <-].
    + now apply moves_task_done_error.
    + now apply moves_task_done.
  - discriminate.
  - discriminate.
Qed.

Lemma moves_target_task w session ar v t q s t' q' s' :
  moves w session ar v t q s t' q' s' ->
  target_task w session ar v t q s = Some (t', q', s').
Proof.
  destruct 1 as [qq ? H|qq ? H|qq ? ? ? H|qq ? ? ? H|qq ? ? ? ? H|qq ? ? H|qq ? H];
    simpl.
  - unfold q_empty. now rewrite H.
  - unfold q_empty. destruct (items qq); [congruence | reflexivity].
  - unfold q_get. now rewrite H.
  - now rewrite H.
  - now rewrite H.
  - unfold q_task_done. now rewrite H.
  - unfold q_task_done. now rewrite H.
Qed.

(** ** The two files *)

Lemma urls_of_snoc h rows r :
  urls_of ((h :: rows) ++ [r]) = urls_of (h :: rows) ++ [cell_str "url" (h :: rows) r].
Proof. unfold urls_of. simpl. now rewrite map_app. Qed.

Lemma cell_str_clean_shape u r rows :
  clean_shape u r -> cell_str "url" (clean_header :: rows) r = u.
Proof. intros (?&?&?&?&?&?&?&->). reflexivity. Qed.

Lemma cell_str_error_shape u r rows :
  error_shape u r -> cell_str "url" (error_header :: rows) r = u.
Proof. intros (?&->). reflexivity. Qed.

Lemma urls_of_kept P rows :
  (cnt P (urls_of (clean_header :: kept rows))
   <= cnt P (urls_of (clean_header :: rows)))%nat.
Proof. unfold urls_of, kept. simpl. apply cnt_map_filter. Qed.

Lemma kept_length rows : (length (kept rows) <= length rows)%nat.
Proof. unfold kept. apply List.filter_length_le. Qed.

Lemma kept_idempotent rows : kept (kept rows) = kept rows.
Proof.
  unfold kept. induction rows as [|r rows IH]; simpl; [reflexivity|].
  destruct (negb (cell_isna 0 r)) eqn:E; simpl; rewrite ?E, IH; reflexivity.
Qed.

Lemma kept_shape rows :
  Forall (fun r => exists u, clean_shape u r) rows ->
  Forall (fun r => exists u, clean_shape u r) (kept rows).
Proof.
  unfold kept. induction 1 as [|r rows Hr _ IH]; simpl; [constructor|].
  destruct (negb (cell_isna 0 r)); [constructor|]; assumption.
Qed.

(** A kept row of the shape the workers write has a non-empty text:
    the empty string is one of the strings read back as missing. *)
Lemma kept_has_text rows file_rows :
  Forall (fun r => exists u, clean_shape u r) rows ->
  Forall (has_text (clean_header :: file_rows)) (kept rows).
Proof.
  unfold kept. induction 1 as [|r rows Hr _ IH]; simpl; [constructor|].
  destruct (negb (cell_isna 0 r)) eqn:E; [constructor|]; try assumption.
  destruct Hr as (u & text & ? & ? & ? & ? & ? & ? & ->).
  exists text. split; [reflexivity|].
  intros ->. discriminate E.
Qed.

Lemma clean_up_output_eq s rows :
  cleanfile s = clean_header :: rows ->
  clean_up_output s
  = (replace_clean (clean_header :: kept rows) s, Return (length (kept rows))).
Proof.
  intros H. unfold clean_up_output. rewrite H. reflexivity.
Qed.

Lemma main_report_eq n s rows :
  cleanfile s = clean_header :: rows ->
  main_report n s =
    let s1 := replace_clean (clean_header :: kept rows) s in
    match n with
    | O => (s1, Raise ZeroDivisionError)
    | S _ =>
        (append_stdout complete_line s1,
         Return {| successful_urls := length (kept rows);
                   total_urls := n;
                   success_rate :=
                     SFdiv 53 1024 (operand (length (kept rows))) (operand n) |})
    end.
Proof.
  intros H. unfold main_report, bind.
  rewrite (clean_up_output_eq _ _ H). destruct n; reflexivity.
Qed.

Lemma main_report_files n s rows :
  cleanfile s = clean_header :: rows ->
  exists s' r,
    main_report n s = (s', r)
    /\ cleanfile s' = clean_header :: kept rows
    /\ errorfile s' = errorfile s
    /\ forall summary, r = Return summary ->
         successful_urls summary = length (data_rows (clean_header :: kept rows))
         /\ total_urls summary = n.
Proof.
  intros H. rewrite (main_report_eq _ _ _ H). cbn zeta.
  destruct n; do 2 eexists; (split; [reflexivity|]); simpl;
    (split; [reflexivity|]); (split; [reflexivity|]).
  - discriminate.
  - intros summary [= <-]. split; reflexivity.
Qed.

(** ** The invariant of a run *)

Section Invariant.

Variable w : World.
Variable args : Args.
Variable urls : list string.

Local Abbreviation Inv := (invariant args urls).

Lemma invariant_setup : Inv (main_setup args urls).
Proof.
  split; simpl.
  - exists []. split; [reflexivity | constructor].
  - exists []. split; [reflexivity | constructor].
  - intros P. rewrite fill_urls. unfold urls_of, total_of, cnt. simpl. lia.
  - reflexivity.
  - tauto.
  - rewrite fill_unfinished, fill_length. unfold total_of. simpl. lia.
  - rewrite fill_unfinished. lia.
  - discriminate.
  - discriminate.
Qed.

Lemma invariant_main st st' :
  Inv st -> main_step urls st = Some st' -> Inv st'.
Proof.
  intros [(rows & Hc & Hshape) Herr Hcount Hpool Hret Hunf Hbound Hex Hrec].
  unfold main_step, to_start in *.
  destruct (main_pc st) as [[|k]|r] eqn:Hpc; [| |discriminate].
  - destruct (Nat.eqb_spec (unfinished_tasks (q st)) 0) as [Hz|]; [|discriminate].
    destruct (main_report_files (length urls) _ _ Hc)
      as (s' & r & -> & Hc' & He' & Hr).
    intros [= <-]. split; simpl; rewrite ?Hc', ?He'; eauto using kept_shape.
    + intros P. specialize (Hcount P). rewrite Hc in Hcount.
      pose proof (urls_of_kept P rows). lia.
    + intros r' [= <-]. split; [now apply kept_has_text | exact Hr].
  - intros [= <-]. split; simpl; eauto.
    + intros P. rewrite total_of_app. simpl. specialize (Hcount P). lia.
    + rewrite length_app, <- Hpool. unfold to_start. simpl. lia.
    + intros H. apply in_app_or in H as [H|[H|[]]]; [auto | discriminate].
    + rewrite total_of_app. simpl. lia.
    + discriminate.
    + discriminate.
Qed.

Lemma worker_step_moves i st st' :
  worker_step w args i st = Some st' ->
  exists k t t',
    main_pc st = Starting k /\ main_pc st' = Starting k
    /\ pool st !! i = Some t /\ pool st' = <[i := t']> (pool st)
    /\ moves w (session args) (redirects args) (unverified args)
             t (q st) (shared st) t' (q st') (shared st').
Proof.
  unfold worker_step.
  destruct (main_pc st) as [k|] eqn:Hpc; [|discriminate].
  destruct (pool st !! i) as [t|] eqn:Ht; [|discriminate].
  destruct (target_task _ _ _ _ _ _ _) as [[[t' q'] s']|] eqn:Hstep;
    [|discriminate].
  intros [= <-]. exists k, t, t'. simpl.
  repeat split; auto. now apply target_task_moves.
Qed.

Lemma invariant_worker i st st' :
  Inv st -> worker_step w args i st = Some st' -> Inv st'.
Proof.
  intros [Hclean Herr Hcount Hpool Hret Hunf Hbound Hex Hrec] Hstep.
  destruct (worker_step_moves _ _ _ Hstep)
    as (k & t & t' & Hpc & Hpc' & Ht & Hpool' & Hmoves).
  assert (Hto : to_start st' = to_start st)
    by (unfold to_start; now rewrite Hpc, Hpc').
  assert (Hsum : forall f, (total_of f (pool st') + f t
                            = total_of f (pool st) + f t')%nat)
    by (intros f; rewrite Hpool'; now apply total_of_insert).
  assert (Hin : In Returned (pool st') -> Returned = t' \/ In Returned (pool st))
    by (rewrite Hpool'; apply In_insert).
  assert (Hlen : length (pool st') = length (pool st))
    by (rewrite Hpool'; apply length_insert).
  assert (Hnew : forall P : Prop, (forall r : outcome Summary, main_pc st' = Exited r -> P))
    by (intros P r; rewrite Hpc'; discriminate).
  assert (Hpool1 : (length (pool st') + to_start st')%nat
                   = Z.to_nat (Z.min (threads args) (Z.of_nat (length urls))))
    by (rewrite Hto, Hlen; exact Hpool).
  destruct Hclean as (rows & Hc & Hshape). destruct Herr as (erows & He & Heshape).
  inversion Hmoves as
      [q0 s0 Hq|q0 s0 Hq|q0 s0 url rest Hq|q0 s0 url s1 Hcall
       |q0 s0 url s1 e Hcall|q0 s0 n Hq|q0 s0 Hq];
    subst t t'; clear Hmoves;
    repeat match goal with
           | H : ?x = _ |- _ => is_var x; subst x
           end;
    match goal with H : _ = q st' |- _ => rename H into Hq' end;
    try match goal with H : _ = shared st' |- _ => rename H into Hs' end;
    (split; try (intros r Hr; exact (Hnew _ r Hr));
     rewrite <- ?Hq', <- ?Hs'; simpl; eauto).
  (* the loop test finds the queue empty *)
  - intros P. specialize (Hcount P). specialize (Hsum (holds P)).
    simpl in Hsum. lia.
  - specialize (Hsum owed). simpl in Hsum. lia.
  (* the loop test finds an item *)
  - intros P. specialize (Hcount P). specialize (Hsum (holds P)).
    simpl in Hsum. lia.
  - intros HR. destruct (Hin HR) as [|HR']; [discriminate | auto].
  - specialize (Hsum owed). simpl in Hsum. lia.
  (* q.get() *)
  - intros P. specialize (Hcount P). specialize (Hsum (holds P)).
    rewrite Hq in Hcount. simpl in Hsum, Hcount. rewrite cnt_cons in Hcount. lia.
  - intros HR. destruct (Hin HR) as [|HR']; [discriminate|].
    apply Hret in HR'. congruence.
  - specialize (Hsum owed). rewrite Hq in Hunf. simpl in Hsum, Hunf. lia.
  (* get_text_from_url returns *)
  - destruct (get_text_from_url_rows _ _ _ _ _ _ _ _ Hcall)
      as [[-> _]|[(row & Hrow & -> & _)|(row & _ & _ & -> & _)]]; eauto.
    exists (rows ++ [row]). rewrite Hc. split; [reflexivity|].
    apply Forall_app; split; [assumption|]. constructor; eauto.
  - destruct (get_text_from_url_rows _ _ _ _ _ _ _ _ Hcall)
      as [[_ ->]|[(row & _ & _ & -> & _)|(row & Hrow & -> & _)]]; eauto.
    exists (erows ++ [row]). rewrite He. split; [reflexivity|].
    apply Forall_app; split; [assumption|]. constructor; eauto.
  - intros P. specialize (Hcount P). specialize (Hsum (holds P)).
    simpl in Hsum.
    destruct (get_text_from_url_rows _ _ _ _ _ _ _ _ Hcall)
      as [[-> ->]|[(row & Hrow & -> & -> & _)|(row & Hrow & -> & -> & _)]].
    + lia.
    + rewrite Hc in *. rewrite urls_of_snoc, cnt_app, cnt_cons.
      rewrite (cell_str_clean_shape _ _ _ Hrow). rewrite cnt_nil. lia.
    + rewrite He in *. rewrite urls_of_snoc, cnt_app, cnt_cons.
      rewrite (cell_str_error_shape _ _ _ Hrow). rewrite cnt_nil. lia.
  - intros HR. destruct (Hin HR) as [|HR']; [discriminate | auto].
  - specialize (Hsum owed). simpl in Hsum. lia.
  (* get_text_from_url raises *)
  - destruct (get_text_from_url_rows _ _ _ _ _ _ _ _ Hcall)
      as [[-> _]|[(row & _ & _ & _ & [=])|(row & _ & _ & _ & [=])]]; eauto.
  - destruct (get_text_from_url_rows _ _ _ _ _ _ _ _ Hcall)
      as [[_ ->]|[(row & _ & _ & _ & [=])|(row & _ & _ & _ & [=])]]; eauto.
  - intros P. specialize (Hcount P). specialize (Hsum (holds P)).
    simpl in Hsum.
    destruct (get_text_from_url_rows _ _ _ _ _ _ _ _ Hcall)
      as [[-> ->]|[(row & _ & _ & _ & [=])|(row & _ & _ & _ & [=])]].
    lia.
  - intros HR. destruct (Hin HR) as [|HR']; [discriminate | auto].
  - specialize (Hsum owed). simpl in Hsum. lia.
  (* q.task_done() *)
  - intros P. specialize (Hcount P). specialize (Hsum (holds P)).
    simpl in Hsum. lia.
  - intros HR. destruct (Hin HR) as [|HR']; [discriminate | auto].
  - specialize (Hsum owed). simpl in Hsum. lia.
  - lia.
  (* q.task_done() called once too often *)
  - intros P. specialize (Hcount P). specialize (Hsum (holds P)).
    simpl in Hsum. lia.
  - intros HR. destruct (Hin HR) as [|HR']; [discriminate | auto].
  - specialize (Hsum owed). simpl in Hsum. lia.
Qed.

Lemma invariant_reachable st : reachable w args urls st -> Inv st.
Proof.
  induction 1 as [|st st' _ IH [[|i] Hact]]; simpl in *.
  - apply invariant_setup.
  - eapply invariant_main; eassumption.
  - eapply invariant_worker; eassumption.
Qed.

Lemma reachable_run schedule st :
  reachable w args urls st -> reachable w args urls (run w args urls schedule st).
Proof.
  revert st. induction schedule as [|a rest IH]; intros st H; simpl; [exact H|].
  destruct (act w args urls a st) as [st'|] eqn:Hact; apply IH; [|exact H].
  eapply reachable_step; [exact H | exists a; exact Hact].
Qed.

(** Every step brings the end nearer: no run goes on for ever. *)
Lemma step_measure st st' :
  step w args urls st st' -> (measure st' < measure st)%nat.
Proof.
  intros [[|i] Hact]; simpl in Hact.
  - unfold main_step in Hact. unfold measure, to_start.
    destruct (main_pc st) as [[|k]|r] eqn:Hpc; [| |discriminate].
    + destruct (Nat.eqb _ 0); [|discriminate].
      destruct (main_report _ _) as [s' r]. injection Hact as <-. simpl. lia.
    + injection Hact as <-. simpl. rewrite total_of_app. simpl. lia.
  - destruct (worker_step_moves _ _ _ Hact)
      as (k & t & t' & Hpc & Hpc' & Ht & Hpool' & Hmoves).
    pose proof (total_of_insert rank _ _ _ t' Ht) as Hsum.
    unfold measure, to_start. rewrite Hpc, Hpc', Hpool'.
    inversion Hmoves as
      [q0 s0 Hq|q0 s0 Hq|q0 s0 url rest Hq|q0 s0 url s1 Hcall
       |q0 s0 url s1 e Hcall|q0 s0 n Hq|q0 s0 Hq];
      subst t t'; simpl in *; rewrite ?Hq; simpl; lia.
Qed.

(** A thread that died holds its task for ever: [main] is not past
    [q.join()]. *)
Lemma dead_thread_blocks_join st e r :
  reachable w args urls st -> In (Died e) (pool st) -> main_pc st <> Exited r.
Proof.
  intros Hreach Hdead Hpc.
  destruct (invariant_reachable _ Hreach) as [_ _ _ _ _ Hunf _ Hex _].
  rewrite (Hex _ Hpc) in Hunf.
  pose proof (total_of_In owed _ _ Hdead) as H. simpl in H. lia.
Qed.

(** A thread that cannot move is blocked in [q.get()] on an empty queue,
    has left the loop, or has died. *)
Lemma blocked_thread i st t :
  worker_step w args i st = None ->
  main_pc st = Starting 0 ->
  pool st !! i = Some t ->
  (t = AtGet /\ items (q st) = []) \/ t = Returned \/ exists e, t = Died e.
Proof.
  unfold worker_step. intros Hstep Hpc Ht. rewrite Hpc, Ht in Hstep.
  destruct t; simpl in Hstep; eauto.
  - discriminate.
  - unfold q_get in Hstep. destruct (items (q st)); [auto | discriminate].
  - destruct (get_text_from_url _ _ _ _ _ _) as [? []]; discriminate.
  - destruct (q_task_done _); discriminate.
Qed.

(** With as many threads as items, the queue is empty once nobody can
    move: a thread leaves the loop only on an empty queue, and a thread
    that died took an item with it. *)
Lemma stuck_empty st :
  reachable w args urls st -> stuck w args urls st ->
  Z.of_nat (length urls) <= threads args ->
  items (q st) = [].
Proof.
  intros Hreach Hstuck Hmany.
  destruct (invariant_reachable _ Hreach)
    as [_ _ _ Hpool Hret Hunf Hbound Hex _].
  unfold to_start in Hpool.
  destruct (main_pc st) as [[|k]|r] eqn:Hpc.
  - destruct (items (q st)) as [|url rest] eqn:Hitems; [reflexivity|].
    exfalso.
    assert (Hdead : Forall (fun t => owed t = 1%nat) (pool st)).
    { apply Forall_lookup. intros i t Ht.
      destruct (blocked_thread i st t (Hstuck (Worker i)) Hpc Ht)
        as [[_ Hnil]|[->|[e ->]]]; [congruence | | reflexivity].
      assert (In Returned (pool st))
        by (apply list_elem_of_In; eapply list_elem_of_lookup_2; eassumption).
      specialize (Hret H). congruence. }
    apply total_of_all in Hdead. simpl in Hunf, Hbound. lia.
  - specialize (Hstuck Main). simpl in Hstuck. unfold main_step in Hstuck.
    rewrite Hpc in Hstuck. discriminate.
  - specialize (Hex _ eq_refl). rewrite Hex in Hunf.
    destruct (items (q st)); [reflexivity | simpl in Hunf; lia].
Qed.

(** Once nobody can move, no thread still holds an item it has not
    run [get_text_from_url] on. *)
Lemma stuck_processed st :
  reachable w args urls st -> stuck w args urls st ->
  Forall (fun t => forall url, t <> AtCall url) (pool st).
Proof.
  intros Hreach Hstuck.
  destruct (invariant_reachable _ Hreach) as [_ _ _ _ _ Hunf _ Hex _].
  apply Forall_lookup. intros i t Ht url ->.
  destruct (main_pc st) as [[|k]|r] eqn:Hpc.
  - destruct (blocked_thread i st _ (Hstuck (Worker i)) Hpc Ht)
      as [[? _]|[?|[e ?]]]; discriminate.
  - specialize (Hstuck Main). simpl in Hstuck. unfold main_step in Hstuck.
    rewrite Hpc in Hstuck. discriminate.
  - rewrite (Hex _ eq_refl) in Hunf.
    assert (Hin : In (AtCall url) (pool st))
      by (apply list_elem_of_In; eapply list_elem_of_lookup_2; eassumption).
    pose proof (total_of_In owed _ _ Hin) as H. simpl in H. lia.
Qed.

End Invariant.

(** ** The adapter *)

(** An error that is not connection-level ends [send] at once, whatever
    the number of retries left. *)
Lemma send_terminal retries try u n k e :
  try k = Failed e -> connection_level e = false ->
  send retries try u n k = (Raise e, [Attempt u]).
Proof. intros H1 H2. destruct n; simpl; rewrite H1, H2; reflexivity. Qed.

(** With no retry left, a transient failure ends [send] at once. *)
Lemma send_exhausted retries try u k :
  transient retries (try k) = true ->
  send retries try u 0 k = (Raise (exhausted (try k)), [Attempt u]).
Proof.
  simpl. destruct (try k) as [r|e]; simpl; intros ->; reflexivity.
Qed.

(** An answer outside the force list is returned at once. *)
Lemma send_answer retries try u n k r :
  try k = Answered r -> status_code r ∉ status_forcelist retries ->
  send retries try u n k = (Return r, [Attempt u]).
Proof.
  intros H1 H2. destruct n; simpl; rewrite H1;
    rewrite bool_decide_eq_false_2 by assumption; reflexivity.
Qed.

Lemma terminal_not_retried e :
  In e [InvalidSchema; MissingSchema; TooManyRedirects] ->
  connection_level e = false /\ caught e = true.
Proof.
  intros [<-|[<-|[<-|[]]]]; split; reflexivity.
Qed.

Lemma transient_caught retries o :
  transient retries o = true -> caught (exhausted o) = true.
Proof.
  destruct o as [r|e]; simpl; [reflexivity|].
  unfold connection_level, caught. simpl. intros ->. reflexivity.
Qed.

(** What [send] returns is an answer outside the force list. *)
Lemma send_returns retries try u n k r evs :
  send retries try u n k = (Return r, evs) ->
  status_code r ∉ status_forcelist retries.
Proof.
  revert k evs. induction n as [|n IH]; intros k evs; simpl.
  - destruct (try k) as [r0|e].
    + case_bool_decide; [discriminate|]. intros [= <- _]. assumption.
    + destruct (connection_level e); discriminate.
  - destruct (send retries try u n (S k)) as [r1 evs1] eqn:E.
    destruct (try k) as [r0|e].
    + case_bool_decide; [|intros [= <- _]; assumption].
      intros [= -> _]. eapply IH, E.
    + destruct (connection_level e); [|discriminate].
      intros [= -> _]. eapply IH, E.
Qed.

(** With no retry left, an answer in the force list is turned into
    [RetryError], which the second [except] clause records. *)
Lemma forced_status_recorded_as_RetryError w url backoff_factor
    allow_redirects verify s response :
  http_attempt w url allow_redirects verify 0 = Answered response ->
  In (status_code response) [500; 502; 503; 504] ->
  get_text_from_url w url (create_session 0 backoff_factor)
    allow_redirects verify s
  = (append_stdout (invalid_line url)
       (append_stdout (caught_line url RetryError)
          (append_error [PyStr (snd url); PyStr "RetryError"]
             (append_net [Attempt (snd url)] s))),
     Return tt).
Proof.
  intros Hanswer Hforced.
  apply (call_caught _ _ _ _ _ _ _ RetryError); [|reflexivity].
  rewrite session_get_eq. simpl. rewrite Hanswer.
  rewrite bool_decide_eq_true_2 by now apply list_elem_of_In.
  reflexivity.
Qed.

(** ** Single calls: the claims about one item *)

(** C7 (amended): under a session of [create_session], whenever
    [session.get] hands back a response whose status is from 400 up to
    599, that is whenever [response.ok] is false, the status is none of
    500, 502, 503 and 504 (the adapter turns these into [RetryError]),
    and [get_text_from_url] appends exactly one row to the error file,
    made of the URL and the numeric status code, writes nothing to the
    clean file, does nothing more on the network after that one
    [session.get] (no retry at this layer) and returns; for a 404 the
    cell is the number 404, which [csv] writes as "404".  And when the
    first answer of the server has a status other than these four,
    [session.get] hands it back after that single attempt, whatever the
    retry policy. *)
Theorem status_error_recorded w url max_retries backoff_factor
    allow_redirects verify s :
  let session := create_session max_retries backoff_factor in
  let s' := fst (get_text_from_url w url session allow_redirects verify s) in
  (forall s1 response,
     session_get w session url allow_redirects verify s = (s1, Return response) ->
     400 <= status_code response < 600 ->
     ~ In (status_code response) [500; 502; 503; 504]
     /\ snd (get_text_from_url w url session allow_redirects verify s) = Return tt
     /\ errorfile s'
        = errorfile s ++ [[PyStr (snd url); PyInt (status_code response)]]
     /\ cleanfile s' = cleanfile s
     /\ net s' = net s1
     /\ (status_code response = 404 ->
         List.last (errorfile s') [] = [PyStr (snd url); PyInt 404]
         /\ str_int (status_code response) = "404"))
  /\ (forall response,
        http_attempt w url allow_redirects verify 0 = Answered response ->
        ~ In (status_code response) [500; 502; 503; 504] ->
        session_get w session url allow_redirects verify s
        = (append_net [Attempt (snd url)] s, Return response)).
Proof.
  intros session s'. subst s'. split.
  - intros s1 response Hget Hstatus.
    assert (Hok : ok response = false).
    { unfold ok. apply negb_false_iff, andb_true_iff.
      split; [apply Z.leb_le | apply Z.ltb_lt]; lia. }
    split.
    { rewrite session_get_eq in Hget.
      destruct (send _ _ _ _ _) as [r evs] eqn:Hsend.
      injection Hget as _ ->. apply send_returns in Hsend.
      intros Hin. apply Hsend. now apply list_elem_of_In. }
    destruct (session_get_files _ _ _ _ _ _ _ _ Hget) as (Hc & He & _).
    rewrite (call_status _ _ _ _ _ _ _ _ Hget Hok). simpl.
    rewrite Hc, He. repeat split.
    + rewrite last_last. now rewrite H.
    + now rewrite H.
  - intros response Hanswer Hstatus. rewrite session_get_eq.
    rewrite (send_answer _ _ _ _ _ _ Hanswer); [reflexivity|].
    intros Hin. apply Hstatus. now apply list_elem_of_In.
Qed.

(** C8: for an unrecoverable URL error ([InvalidSchema], [MissingSchema]
    or [TooManyRedirects]) and every session, that is every retry policy:
    when [session.get] raises it, [get_text_from_url] does nothing more on
    the network, at once appends to the error file the row made of the
    URL and the name of the exception class, prints the line with the
    index of the item, writes nothing to the clean file and returns; and
    when the first attempt of the adapter meets it, [session.get] raises
    it after that one attempt, without a sleep. *)
Theorem terminal_url_error_recorded w url session allow_redirects verify s e :
  In e [InvalidSchema; MissingSchema; TooManyRedirects] ->
  (forall s1,
     session_get w session url allow_redirects verify s = (s1, Raise e) ->
     get_text_from_url w url session allow_redirects verify s
     = (append_stdout (invalid_line url)
          (append_stdout (caught_line url e)
             (append_error [PyStr (snd url); PyStr (class_name e)] s1)),
        Return tt))
  /\ (http_attempt w url allow_redirects verify 0 = Failed e ->
      session_get w session url allow_redirects verify s
      = (append_net [Attempt (snd url)] s, Raise e)).
Proof.
  intros He. destruct (terminal_not_retried _ He) as [Hterm Hcaught]. split.
  - intros s1 Hget. now apply call_caught.
  - intros Hfirst. rewrite session_get_eq.
    now rewrite (send_terminal _ _ _ _ _ _ Hfirst Hterm).
Qed.

(** C9: with [max_retries = 0], the default, a first attempt that meets a
    transient failure (a connection-level error, or a status of the force
    list) is the only attempt: nothing is slept, no second attempt is
    made, and [get_text_from_url] appends the row of the failure to the
    error file and returns. *)
Theorem no_retry_by_default w url backoff_factor allow_redirects verify s :
  let session := create_session 0 backoff_factor in
  let first := http_attempt w url allow_redirects verify 0 in
  transient (max_retries_of_adapter session) first = true ->
  get_text_from_url w url session allow_redirects verify s
  = (append_stdout (invalid_line url)
       (append_stdout (caught_line url (exhausted first))
          (append_error [PyStr (snd url); PyStr (class_name (exhausted first))]
             (append_net [Attempt (snd url)] s))),
     Return tt).
Proof.
  intros session first Htransient.
  apply call_caught; [|exact (transient_caught _ _ Htransient)].
  rewrite session_get_eq.
  change (Z.to_nat (total (max_retries_of_adapter session))) with O.
  now rewrite (send_exhausted _ _ (snd url) _ Htransient).
Qed.

(** C10: when [session.get] returns an ok response and the article does
    not reach download state 2, [get_text_from_url] returns having written
    no row to either file and printed nothing; the count of successes that
    [clean_up_output] reports is what it was without the item. *)
Theorem undownloaded_article_unaccounted
    w url session allow_redirects verify s s1 response :
  session_get w session url allow_redirects verify s = (s1, Return response) ->
  ok response = true ->
  download_state (newspaper_Article w url) <> 2 ->
  let s' := fst (get_text_from_url w url session allow_redirects verify s) in
  snd (get_text_from_url w url session allow_redirects verify s) = Return tt
  /\ cleanfile s' = cleanfile s
  /\ errorfile s' = errorfile s
  /\ stdout s' = stdout s
  /\ snd (clean_up_output s') = snd (clean_up_output s).
Proof.
  intros Hget Hok Hstate.
  destruct (session_get_files _ _ _ _ _ _ _ _ Hget) as (Hc & He & Ho).
  rewrite (call_not_downloaded _ _ _ _ _ _ _ _ Hget Hok Hstate). simpl.
  repeat split; try assumption.
  unfold clean_up_output, bind, lift. rewrite Hc.
  destruct (read_csv (cleanfile s)) as [df|e]; simpl; [|reflexivity].
  destruct (dropna "text" df); reflexivity.
Qed.

(** The 404 of the scenario. *)
Lemma status_error_recorded_witness :
  let url := (2%nat, Sample.missing) in
  let s := shared (main_setup Sample.defaults Sample.scenario) in
  let s' := fst (get_text_from_url Sample.world url (session Sample.defaults)
                   false true s) in
  errorfile s' = [error_header; [PyStr Sample.missing; PyInt 404]]
  /\ net s' = [Attempt Sample.missing]
  /\ str_int 404 = "404".
Proof.
  intros url s s'.
  destruct (status_error_recorded Sample.world url 0 0 false true s)
    as [Hrow Hget].
  specialize (Hget {| status_code := 404 |}).
  destruct (Hrow _ _ (Hget eq_refl ltac:(simpl; lia)))
    as (_ & _ & He & _ & Hn & H404); [simpl; lia|].
  split; [exact He|]. split; [exact Hn | apply H404; reflexivity].
Defined.

(** C7, as stated, fails in two ways.  A response with status 101 is
    neither 2xx nor 3xx, yet [response.ok] holds for it and nothing is
    appended to the error file.  And the answer 500 is neither 2xx nor
    3xx and meets no transport error, yet the adapter, which retries this
    status, turns it into [RetryError]: the reason written is that name,
    not the number 500. *)
Lemma status_not_recorded_as_number :
  (let url := (0%nat, Sample.upgrade) in
   let s := shared (main_setup Sample.defaults [Sample.upgrade]) in
   let response := {| status_code := 101 |} in
   session_get Sample.world (session Sample.defaults) url false true s
     = (append_net [Attempt Sample.upgrade] s, Return response)
   /\ non_2xx_3xx response = true
   /\ errorfile (fst (get_text_from_url Sample.world url (session Sample.defaults)
                        false true s))
      = errorfile s)
  /\ (let url := (0%nat, Sample.broken) in
      let s := shared (main_setup Sample.defaults [Sample.broken]) in
      let response := {| status_code := 500 |} in
      let s' := fst (get_text_from_url Sample.world url (session Sample.defaults)
                       false true s) in
      http_attempt Sample.world url false true 0 = Answered response
      /\ non_2xx_3xx response = true
      /\ errorfile s' = [error_header; [PyStr Sample.broken; PyStr "RetryError"]]
      /\ net s' = [Attempt Sample.broken]).
Proof. repeat split. Qed.

(** A missing scheme under a policy of three retries: one attempt, one
    row, two lines. *)
Lemma terminal_url_error_recorded_witness :
  let url := (1%nat, Sample.not_a_url) in
  let s := shared (main_setup Sample.defaults Sample.scenario) in
  let s' := fst (get_text_from_url Sample.world url (create_session 3 (1 # 2))
                   false true s) in
  errorfile s' = [error_header; [PyStr Sample.not_a_url; PyStr "MissingSchema"]]
  /\ net s' = [Attempt Sample.not_a_url]
  /\ stdout s' = ["#1: MissingSchema not-a-url"; "not-a-url is not a valid URL"].
Proof.
  intros url s s'. subst s'.
  destruct (terminal_url_error_recorded Sample.world url
              (create_session 3 (1 # 2)) false true s MissingSchema)
    as [Hcall Hget].
  - simpl. tauto.
  - rewrite (Hcall _ (Hget eq_refl)). repeat split.
Defined.

(** A refused connection under the default options. *)
Lemma no_retry_by_default_witness :
  let url := (0%nat, Sample.down) in
  let s := shared (main_setup Sample.defaults [Sample.down]) in
  let s' := fst (get_text_from_url Sample.world url (session Sample.defaults)
                   false true s) in
  errorfile s' = [error_header; [PyStr Sample.down; PyStr "ConnectionError"]]
  /\ net s' = [Attempt Sample.down].
Proof.
  intros url s s'. subst s'.
  change (session Sample.defaults) with (create_session 0 0).
  rewrite (no_retry_by_default Sample.world url 0 false true s).
  - repeat split.
  - reflexivity.
Defined.

(** A page that answers 200 and that [newspaper] fails to download. *)
Lemma undownloaded_article_unaccounted_witness :
  let url := (0%nat, Sample.paywall) in
  let s := shared (main_setup Sample.defaults [Sample.paywall]) in
  let s' := fst (get_text_from_url Sample.world url (session Sample.defaults)
                   false true s) in
  cleanfile s' = [clean_header] /\ errorfile s' = [error_header] /\ stdout s' = [].
Proof.
  intros url s s'.
  destruct (undownloaded_article_unaccounted Sample.world url
              (session Sample.defaults) false true s
              (append_net [Attempt Sample.paywall] s) {| status_code := 200 |})
    as (_ & Hc & He & Ho & _).
  - reflexivity.
  - reflexivity.
  - simpl. lia.
  - repeat split; assumption.
Defined.

(** ** Whole runs *)

(** C1, on the code: with an empty input no thread is started, the main
    thread passes [q.join()] at once, reconciles the clean file, and the
    division [successful_urls / total_urls] raises [ZeroDivisionError]:
    [main] ends by that exception. *)
Theorem empty_input_divides_by_zero w args :
  let st := main_setup args [] in
  pool st = []
  /\ (forall i, act w args [] (Worker i) st = None)
  /\ act w args [] Main st
     = Some {| shared := shared st; q := q st; pool := [];
               main_pc := Exited (Raise ZeroDivisionError) |}.
Proof.
  assert (H : Z.to_nat (Z.min (threads args) (Z.of_nat 0)) = O) by lia.
  unfold main_setup. simpl length. rewrite H. repeat split.
Qed.

Section NoTime.

Import Sample.

Local Abbreviation reachable' := (reachable world defaults [no_time]).

Lemma no_time_call url s :
  snd url = no_time ->
  get_text_from_url world url (session defaults) (redirects defaults)
                    (unverified defaults) s
  = (append_net [Attempt no_time] s, Raise AttributeError).
Proof. destruct url as [i u]. simpl. intros ->. reflexivity. Qed.

Lemma hung_reachable st : reachable' st -> hung st.
Proof.
  induction 1 as [|st st' _ IH [[|i] Hact]]; simpl in *.
  - unfold hung. simpl. repeat split; eauto.
  - destruct IH as (Hunf & Herr & Hout & Hitems & Hpool & k & Hpc).
    unfold main_step in Hact. rewrite Hpc, Hunf in Hact.
    destruct k; [discriminate|]. injection Hact as <-.
    unfold hung. simpl. repeat split; eauto.
    apply Forall_app. split; [assumption|].
    constructor; [|constructor]. split; discriminate.
  - destruct IH as (Hunf & Herr & Hout & Hitems & Hpool & k & Hpc).
    destruct (worker_step_moves _ _ _ _ _ Hact)
      as (k' & t & t' & _ & Hpc' & Ht & Hpool' & Hmoves).
    pose proof (Forall_lookup_1 _ _ _ _ Hpool Ht) as [Hnot Hurl].
    unfold hung. rewrite Hpool'.
    inversion Hmoves as
      [q0 s0 Hq|q0 s0 Hq|q0 s0 url rest Hq|q0 s0 url s1 Hcall
       |q0 s0 url s1 e Hcall|q0 s0 n Hq|q0 s0 Hq];
      subst t t'; try congruence.
    + repeat split; eauto.
      apply Forall_insert; [assumption|]. split; discriminate.
    + repeat split; eauto.
      apply Forall_insert; [assumption|]. split; discriminate.
    + simpl. rewrite Hq in Hitems.
      apply Forall_cons in Hitems as [Hurl' Hrest]. repeat split; eauto.
      apply Forall_insert; [assumption|]. split; [discriminate|].
      now intros ? [= <-].
    + rewrite (no_time_call url _ (Hurl _ eq_refl)) in Hcall. discriminate.
    + rewrite (no_time_call url _ (Hurl _ eq_refl)) in Hcall.
      injection Hcall as Hs _. rewrite <- Hs. simpl. repeat split; eauto.
      apply Forall_insert; [assumption|]. split; discriminate.
Qed.

(** C2, on the code: for a page that is fetched and downloaded but has no
    [<time>] element, [get_date_time] raises [AttributeError];
    [get_text_from_url] lets it through without a row in the error file
    and without a printed line; the thread dies before [q.task_done()],
    so that in no state the run can reach has [main] left [q.join()]. *)
Theorem extraction_failure_hangs_the_run :
  (forall s,
     get_text_from_url world (0%nat, no_time) (session defaults) false true s
     = (append_net [Attempt no_time] s, Raise AttributeError))
  /\ (forall st, reachable' st ->
        data_rows (errorfile (shared st)) = []
        /\ stdout (shared st) = []
        /\ forall r, main_pc st <> Exited r)
  /\ (reachable' no_time_end
      /\ pool no_time_end = [Died AttributeError]
      /\ unfinished_tasks (q no_time_end) = 1%nat
      /\ stuck world defaults [no_time] no_time_end).
Proof.
  split; [|split].
  - intros s. now apply no_time_call.
  - intros st Hreach.
    destruct (hung_reachable _ Hreach) as (_ & Herr & Hout & _ & _ & k & Hpc).
    repeat split; try assumption. intros r. rewrite Hpc. discriminate.
  - split; [apply reachable_run, reachable_setup|].
    repeat split. intros [|[|i]]; reflexivity.
Qed.

End NoTime.

(** Both headers are in place before the first thread exists. *)
Lemma headers_before_threads args urls :
  let st := main_setup args urls in
  pool st = []
  /\ cleanfile (shared st) = [clean_header]
  /\ errorfile (shared st) = [error_header].
Proof. repeat split. Qed.



Section Runs.

Variable w : World.
Variable args : Args.
Variable urls : list string.

(** C3 (amended): when the requested number of threads is not negative,
    the number of threads [main] has started once its loop is over equals
    [min(threads, total_urls)]; in particular, when more threads are
    requested than there are URLs, exactly [total_urls] threads are
    started and, whatever the interleaving, when nobody can move any more
    the queue is empty and no thread holds an item it has not run
    [get_text_from_url] on; and every step brings that moment nearer. *)
Theorem worker_count_and_consumption st :
  0 <= threads args ->
  reachable w args urls st ->
  (to_start st = O ->
   Z.of_nat (length (pool st)) = Z.min (threads args) (Z.of_nat (length urls)))
  /\ (threads args > Z.of_nat (length urls) -> to_start st = O ->
      length (pool st) = length urls)
  /\ (threads args > Z.of_nat (length urls) -> stuck w args urls st ->
      items (q st) = []
      /\ Forall (fun t => forall url, t <> AtCall url) (pool st))
  /\ (forall st', step w args urls st st' -> (measure st' < measure st)%nat).
Proof.
  intros Hpos Hreach.
  pose proof (inv_pool _ _ _ (invariant_reachable w args urls st Hreach)) as Hpool.
  split; [|split; [|split]].
  - intros Hz. rewrite Hz in Hpool. lia.
  - intros Hmany Hz. rewrite Hz in Hpool. lia.
  - intros Hmany Hstuck. split.
    + apply (stuck_empty w args urls); auto. lia.
    + now apply (stuck_processed w args urls).
  - intros st'. apply step_measure.
Qed.


(** C5: in every state a run can reach, [clean_up_output] returns, every
    row it leaves in the clean file has a non-empty text, and the count it
    returns is the number of rows it leaves; and once [main] is past it,
    the clean file is in that state and [successful_urls] is the number of
    its rows. *)
Theorem reconciliation_law st :
  reachable w args urls st ->
  (exists s' n,
     clean_up_output (shared st) = (s', Return n)
     /\ Forall (has_text (cleanfile s')) (data_rows (cleanfile s'))
     /\ n = length (data_rows (cleanfile s')))
  /\ (forall r, main_pc st = Exited r ->
        Forall (has_text (cleanfile (shared st)))
               (data_rows (cleanfile (shared st)))
        /\ forall summary, r = Return summary ->
             successful_urls summary
             = length (data_rows (cleanfile (shared st)))).
Proof.
  intros Hreach.
  destruct (invariant_reachable w args urls st Hreach)
    as [(rows & Hc & Hshape) _ _ _ _ _ _ _ Hrec].
  split.
  - exists (replace_clean (clean_header :: kept rows) (shared st)),
           (length (kept rows)).
    split; [now apply clean_up_output_eq|]. simpl.
    split; [now apply kept_has_text | reflexivity].
  - intros r Hr. destruct (Hrec r Hr) as [Htext Hsum].
    split; [exact Htext|]. intros summary ->. now apply Hsum.
Qed.

End Runs.

(** The scenario under the default of 100 threads: three are started,
    and the queue is empty at the end. *)
Lemma worker_count_and_consumption_witness :
  length (pool Sample.scenario_end) = 3%nat
  /\ items (q Sample.scenario_end) = [].
Proof.
  destruct (worker_count_and_consumption Sample.world Sample.defaults
              Sample.scenario Sample.scenario_end) as (_ & Hcount & Hempty & _).
  - simpl. lia.
  - apply reachable_run, reachable_setup.
  - split.
    + apply Hcount; [simpl; lia | reflexivity].
    + apply Hempty; [simpl; lia|]. intros [|i]; reflexivity.
Defined.

(** C3, as stated, fails: with [--threads -1] and one URL, [main] starts
    no thread, while [min(-1, 1)] is [-1]; the item stays in the queue and
    [main] stays in [q.join()]. *)
Lemma negative_threads_start_no_worker :
  let st := main_setup Sample.negative [Sample.page] in
  reachable Sample.world Sample.negative [Sample.page] st
  /\ to_start st = O
  /\ stuck Sample.world Sample.negative [Sample.page] st
  /\ Z.of_nat (length (pool st))
     <> Z.min (threads Sample.negative) (Z.of_nat (length [Sample.page]))
  /\ items (q st) = [(O, Sample.page)].
Proof.
  split; [apply reachable_setup|].
  split; [reflexivity|].
  split; [intros [|i]; reflexivity|].
  split; [discriminate | reflexivity].
Qed.



(** The scenario at its end: one row, with its text. *)
Lemma reconciliation_law_witness :
  Forall (has_text (cleanfile (shared Sample.scenario_end)))
         (data_rows (cleanfile (shared Sample.scenario_end)))
  /\ length (data_rows (cleanfile (shared Sample.scenario_end))) = 1%nat.
Proof.
  destruct (reconciliation_law Sample.world Sample.defaults
              Sample.scenario Sample.scenario_end) as (_ & H).
  - apply reachable_run, reachable_setup.
  - assert (Hpc : main_pc Sample.scenario_end
                  = Exited (Return {| successful_urls := 1; total_urls := 3;
                                      success_rate :=
                                        S754_finite false 6004799503160661 (-54) |}))
      by (vm_compute; reflexivity).
    destruct (H _ Hpc) as [Htext _]. split; [exact Htext | reflexivity].
Defined.

(** * Further properties of the code *)

(** ** One call of [get_text_from_url] *)

Section CallMore.

Variable w : World.
Variable url : WorkItem.
Variable session : Session.
Variables allow_redirects verify : bool.

Local Abbreviation get := (session_get w session url allow_redirects verify).
Local Abbreviation call_it := (get_text_from_url w url session allow_redirects verify).

(** X1: a call appends at most one row over the two files, never one to
    each, and the row carries the URL of the item. *)
Theorem call_writes_at_most_one_row s :
  let s' := fst (call_it s) in
  (cleanfile s' = cleanfile s /\ errorfile s' = errorfile s)
  \/ (exists row, clean_shape (snd url) row
        /\ cleanfile s' = cleanfile s ++ [row] /\ errorfile s' = errorfile s)
  \/ (exists row, error_shape (snd url) row
        /\ errorfile s' = errorfile s ++ [row] /\ cleanfile s' = cleanfile s).
Proof.
  destruct (call_it s) as [s' r] eqn:Hcall. simpl.
  destruct (get_text_from_url_rows _ _ _ _ _ _ _ _ Hcall)
    as [H|[(row & ? & ? & ? & _)|(row & ? & ? & ? & _)]]; eauto 10.
Qed.

Lemma extraction_error_call s s1 response :
  get s = (s1, Return response) -> ok response = true ->
  download_state (newspaper_Article w url) = 2 ->
  match extraction_error w url with
  | Some e => call_it s = (s1, Raise e)
  | None => exists date time,
      get_date_time w (html (newspaper_Article w url)) = Return (date, time)
      /\ call_it s
         = (append_clean (clean_row url (newspaper_Article w url) date time) s1,
            Return tt)
  end.
Proof.
  intros Hget Hok Hstate.
  rewrite (call_downloaded _ _ _ _ _ _ _ _ Hget Hok Hstate).
  unfold extraction_error. cbn zeta.
  destruct (parse_raises _); [reflexivity|].
  destruct (nlp_raises _); [reflexivity|].
  destruct (get_date_time _ _) as [[date time]|e]; [|reflexivity].
  exists date, time. split; reflexivity.
Qed.

(** X2: where a call raises.  When [session.get] raises, the call
    raises exactly when neither [except] clause names the exception, and
    it raises that exception.  When the response is not ok the call
    returns.  When the response is ok and the article is downloaded, the
    first of [parse], [nlp] and [get_date_time] to raise ends the call
    with its exception, nothing but the request having happened. *)
Theorem call_raises_cases s s1 :
  (forall e0 e,
     get s = (s1, Raise e0) ->
     (snd (call_it s) = Raise e <-> e = e0 /\ caught e0 = false))
  /\ (forall response,
        get s = (s1, Return response) -> ok response = false ->
        snd (call_it s) = Return tt)
  /\ (forall response e,
        get s = (s1, Return response) -> ok response = true ->
        download_state (newspaper_Article w url) = 2 ->
        extraction_error w url = Some e ->
        call_it s = (s1, Raise e)).
Proof.
  split; [|split].
  - intros e0 e Hget. destruct (caught e0) eqn:Hcaught.
    + rewrite (call_caught _ _ _ _ _ _ _ _ Hget Hcaught). simpl. split.
      * discriminate.
      * intros [_ [=]].
    + rewrite (call_uncaught _ _ _ _ _ _ _ _ Hget Hcaught). simpl. split.
      * intros [= ->]. auto.
      * intros [-> _]. reflexivity.
  - intros response Hget Hok.
    now rewrite (call_status _ _ _ _ _ _ _ _ Hget Hok).
  - intros response e Hget Hok Hstate Herr.
    pose proof (extraction_error_call _ _ _ Hget Hok Hstate) as Hcall.
    now rewrite Herr in Hcall.
Qed.

(** X3: a call that raises has written no row and printed no line. *)
Theorem call_raises_without_trace s e :
  snd (get_text_from_url w url session allow_redirects verify s) = Raise e ->
  let s' := fst (get_text_from_url w url session allow_redirects verify s) in
  cleanfile s' = cleanfile s /\ errorfile s' = errorfile s
  /\ stdout s' = stdout s.
Proof.
  destruct (get s) as [s1 [response|e0]] eqn:Hget;
    destruct (session_get_files _ _ _ _ _ _ _ _ Hget) as (Hc & He & Ho).
  - destruct (ok response) eqn:Hok.
    + destruct (Z.eq_dec (download_state (newspaper_Article w url)) 2) as [H2|H2].
      * pose proof (extraction_error_call _ _ _ Hget Hok H2) as Hcall.
        destruct (extraction_error w url) as [e1|].
        -- rewrite Hcall. simpl. auto.
        -- destruct Hcall as (date & time & _ & ->). discriminate.
      * rewrite (call_not_downloaded _ _ _ _ _ _ _ _ Hget Hok H2). discriminate.
    + rewrite (call_status _ _ _ _ _ _ _ _ Hget Hok). discriminate.
  - destruct (caught e0) eqn:Hcaught.
    + rewrite (call_caught _ _ _ _ _ _ _ _ Hget Hcaught). discriminate.
    + rewrite (call_uncaught _ _ _ _ _ _ _ _ Hget Hcaught). simpl. auto.
Qed.

(** X4: when the response is ok, the article is downloaded and nothing
    raises in the extraction, the call appends to the clean file the row
    of the article with the URL of the item and the date and time found,
    writes nothing else, prints nothing and returns. *)
Theorem successful_extraction_recorded s s1 response date time :
  get s = (s1, Return response) -> ok response = true ->
  download_state (newspaper_Article w url) = 2 ->
  parse_raises (newspaper_Article w url) = None ->
  nlp_raises (newspaper_Article w url) = None ->
  get_date_time w (html (newspaper_Article w url)) = Return (date, time) ->
  call_it s
  = (append_clean (clean_row url (newspaper_Article w url) date time) s1,
     Return tt)
  /\ errorfile (fst (call_it s)) = errorfile s
  /\ stdout (fst (call_it s)) = stdout s
  /\ cell_str "url" [clean_header]
       (clean_row url (newspaper_Article w url) date time) = snd url.
Proof.
  intros Hget Hok Hstate Hparse Hnlp Hdate.
  destruct (session_get_files _ _ _ _ _ _ _ _ Hget) as (_ & He & Ho).
  rewrite (call_downloaded _ _ _ _ _ _ _ _ Hget Hok Hstate). cbn zeta.
  rewrite Hparse, Hnlp, Hdate. simpl. auto.
Qed.

(** X5: the exceptions of [session.get] the two clauses catch are
    [ConnectionError] and its three subclasses, [InvalidSchema],
    [MissingSchema], [TooManyRedirects] and [RetryError], and no other;
    for each of them the call writes the row made of the URL and of the
    name of the class of the exception itself, prints the two lines and
    returns. *)
Theorem caught_exception_recorded s s1 e :
  get s = (s1, Raise e) ->
  (caught e = true
   <-> In e [ConnectionError; ProxyError; SSLError; ConnectTimeout;
             InvalidSchema; MissingSchema; TooManyRedirects; RetryError])
  /\ (caught e = true ->
      call_it s
      = (append_stdout (invalid_line url)
           (append_stdout (caught_line url e)
              (append_error [PyStr (snd url); PyStr (class_name e)] s1)),
         Return tt)).
Proof.
  intros Hget. split.
  - split.
    + destruct e; simpl; intros H; try discriminate; tauto.
    + simpl. intros H. repeat destruct H as [<-|H]; try reflexivity. destruct H.
  - intros Hcaught. now apply call_caught.
Qed.

End CallMore.

(** ** [get_date_time] *)

Lemma length_append s1 s2 :
  String.length (s1 +:+ s2) = (String.length s1 + String.length s2)%nat.
Proof. induction s1 as [|c s1 IH]; simpl; [reflexivity | now rewrite IH]. Qed.

(** The slice [[14:-4]] drops the first 14 and the last 4 characters. *)
Lemma slice_strips {A} (pre mid post : list A) :
  length pre = 14%nat -> length post = 4%nat ->
  slice (pre ++ mid ++ post) 14 (-4) = mid.
Proof.
  intros Hpre Hpost. unfold slice.
  assert (Hn : length (pre ++ mid ++ post) = (18 + length mid)%nat)
    by (rewrite !length_app; lia).
  rewrite Hn.
  assert (Ha : slice_bound (18 + length mid) 14 = length pre)
    by (unfold slice_bound; change (14 <? 0) with false; cbn iota; lia).
  assert (Hb : slice_bound (18 + length mid) (-4)
               = (length pre + length mid)%nat)
    by (unfold slice_bound; change (-4 <? 0) with true; cbn iota; lia).
  rewrite Ha, Hb.
  replace (length pre + length mid - length pre)%nat with (length mid) by lia.
  rewrite drop_app_length. apply take_app_length.
Qed.

(** On a text of at most 18 characters the slice is empty. *)
Lemma slice_short {A} (t : list A) :
  (length t <= 18)%nat -> slice t 14 (-4) = [].
Proof.
  intros H. unfold slice.
  assert (Hd : (slice_bound (length t) (-4)
                - slice_bound (length t) 14)%nat = O)
    by (unfold slice_bound; change (-4 <? 0) with true;
        change (14 <? 0) with false; cbn iota; lia).
  rewrite Hd. reflexivity.
Qed.

(** X6: of the text of the [<time>] element, [get_date_time] hands to
    [dateutil] what is left without the first 14 and the last 4
    characters, and what [dateutil] makes of that is its result: the
    date and the time parsed, or the exception [parse] raises, be it
    [ParserError] or [OverflowError]. *)
Theorem get_date_time_strips w html (pre mid post : list codepoint) :
  soup_find_time w html = Some (pre ++ mid ++ post) ->
  length pre = 14%nat -> length post = 4%nat ->
  get_date_time w html = dateutil_parse w mid.
Proof.
  intros Htag Hpre Hpost. unfold get_date_time.
  now rewrite Htag, slice_strips.
Qed.

(** The date line of the sample page, and a page whose date line holds
    a number too large for a date. *)
Lemma get_date_time_strips_witness :
  get_date_time Sample.world Sample.page_html
  = Return ("2019-03-04", "10:11:12")
  /\ get_date_time More.large_number Sample.page_html = Raise OverflowError.
Proof.
  split.
  - rewrite (get_date_time_strips Sample.world Sample.page_html
               (chars "Published on: ") (chars "2019-03-04 10:11:12")
               (chars " EST"));
      reflexivity.
  - rewrite (get_date_time_strips More.large_number Sample.page_html
               (chars "Published on: ") (chars "99999999999999999999")
               (chars " EST"));
      reflexivity.
Defined.

(** X7: when the text of the [<time>] element has at most 18 characters,
    nothing of it is left: [dateutil] is handed the empty string, whatever
    the element says. *)
Theorem get_date_time_short_text w html (t : list codepoint) :
  soup_find_time w html = Some t ->
  (length t <= 18)%nat ->
  get_date_time w html = dateutil_parse w [].
Proof.
  intros Htag Hshort. unfold get_date_time.
  now rewrite Htag, slice_short.
Qed.

(** A text of eighteen characters, eleven of them accented letters. *)
Lemma get_date_time_short_text_witness :
  get_date_time More.short_time Sample.page_html = Raise ParserError.
Proof.
  rewrite (get_date_time_short_text More.short_time _
             (repeat 233%N 11 ++ chars "1234567")).
  - reflexivity.
  - reflexivity.
  - simpl. lia.
Defined.

(** ** [clean_up_output] on any file *)

Lemma clean_up_output_cases s :
  clean_up_output s =
    match cleanfile s with
    | [] => (s, Raise EmptyDataError)
    | h :: rows =>
        match column_index "text" h with
        | None => (s, Raise KeyError)
        | Some i =>
            let rows' := List.filter (fun r => negb (cell_isna i r)) rows in
            (replace_clean (h :: rows') s, Return (length rows'))
        end
    end.
Proof.
  unfold clean_up_output, bind, lift, read_csv, dropna.
  destruct (cleanfile s) as [|h rows]; [reflexivity|]. simpl.
  destruct (column_index "text" h); reflexivity.
Qed.

(** X9: on a file of two columns or more whose rows are as wide as its
    header, [clean_up_output] raises exactly when no cell of the header
    is [text], and then with [KeyError]; on a file of no line at all it
    raises [EmptyDataError]; in both cases it leaves everything as it
    was. *)
Theorem clean_up_output_raises_iff s e :
  rectangular (cleanfile s) ->
  (snd (clean_up_output s) = Raise e
   <-> (cleanfile s = [] /\ e = EmptyDataError)
       \/ (exists h rows, cleanfile s = h :: rows
             /\ column_index "text" h = None /\ e = KeyError))
  /\ (snd (clean_up_output s) = Raise e -> fst (clean_up_output s) = s).
Proof.
  intros _. rewrite (clean_up_output_cases s).
  destruct (cleanfile s) as [|h rows] eqn:Hfile; simpl.
  - split; [|reflexivity]. split.
    + intros [= <-]. auto.
    + intros [[_ ->]|(? & ? & [=] & _)]. reflexivity.
  - destruct (column_index "text" h) as [i|] eqn:Hcol; simpl.
    + split; [|discriminate]. split; [discriminate|].
      intros [[[=] _]|(? & ? & [= <- <-] & H & _)]. congruence.
    + split; [|reflexivity]. split.
      * intros [= <-]. right. eauto.
      * intros [[[=] _]|(? & ? & _ & _ & ->)]. reflexivity.
Qed.

(** A file without [text] column. *)
Lemma clean_up_output_raises_iff_witness :
  clean_up_output More.no_text_column = (More.no_text_column, Raise KeyError).
Proof.
  destruct (clean_up_output_raises_iff More.no_text_column KeyError)
    as [[_ Hraises] Hsame].
  - simpl. split; [lia|]. repeat constructor.
  - assert (H : snd (clean_up_output More.no_text_column) = Raise KeyError).
    { apply Hraises. right. do 2 eexists. repeat split; reflexivity. }
    rewrite <- (Hsame H) at 2. rewrite <- H. now destruct (clean_up_output _).
Defined.

(** X10: on a file of two columns or more whose rows are as wide as its
    header, when [clean_up_output] returns, the count is the number of
    rows whose [text] cell does not read as missing, the file it leaves
    has that many rows below the header, and the error file, the
    printed lines and the network log are untouched. *)
Theorem clean_up_output_counts_text_rows s n :
  rectangular (cleanfile s) ->
  snd (clean_up_output s) = Return n ->
  let s' := fst (clean_up_output s) in
  n = length (List.filter (fun r => negb (text_missing (cleanfile s) r))
                          (data_rows (cleanfile s)))
  /\ length (data_rows (cleanfile s')) = n
  /\ (n <= length (data_rows (cleanfile s)))%nat
  /\ errorfile s' = errorfile s /\ stdout s' = stdout s /\ net s' = net s.
Proof.
  intros _. rewrite (clean_up_output_cases s).
  destruct (cleanfile s) as [|h rows] eqn:Hfile; simpl; [discriminate|].
  unfold text_missing, cell.
  destruct (column_index "text" h) as [i|] eqn:Hcol; simpl; [|discriminate].
  intros [= <-]. repeat split. apply List.filter_length_le.
Qed.

(** Of three rows, the one without text and the one whose text reads as
    missing are not counted. *)
Lemma clean_up_output_counts_text_rows_witness :
  snd (clean_up_output More.three_rows) = Return 1%nat
  /\ length (data_rows (cleanfile (fst (clean_up_output More.three_rows))))
     = 1%nat.
Proof.
  destruct (clean_up_output_counts_text_rows More.three_rows 1)
    as (_ & H & _).
  - simpl. split; [lia|]. repeat constructor.
  - reflexivity.
  - split; [reflexivity | exact H].
Defined.

(** A file without header and a file without [text] column. *)
Example clean_up_output_raises :
  clean_up_output More.empty_file = (More.empty_file, Raise EmptyDataError)
  /\ clean_up_output More.no_text_column = (More.no_text_column, Raise KeyError).
Proof. split; reflexivity. Qed.

(** ** The queue *)

Lemma map_pair_seq (pre l : list string) d :
  map (fun i => (i, nth i (pre ++ l) d)) (seq (length pre) (length l))
  = combine (seq (length pre) (length l)) l.
Proof.
  revert pre. induction l as [|x l IH]; intros pre; [reflexivity|].
  simpl. rewrite nth_middle. f_equal.
  specialize (IH (pre ++ [x])).
  rewrite <- app_assoc, length_app, Nat.add_1_r in IH. exact IH.
Qed.

Lemma fill_items urls :
  items (fill urls) = combine (seq 0 (length urls)) urls.
Proof.
  unfold fill.
  destruct (fill_fold (fun i => nth i urls "") (seq 0 (length urls)) Queue_new)
    as [-> _].
  simpl. apply (map_pair_seq [] urls).
Qed.

Lemma combine_seq_item (l : list string) a i u :
  In (i, u) (combine (seq a (length l)) l) ->
  (a <= i)%nat /\ l !! (i - a)%nat = Some u.
Proof.
  revert a. induction l as [|x l IH]; intros a; simpl; [tauto|].
  intros [[= <- <-]|H].
  - rewrite Nat.sub_diag. split; [lia | reflexivity].
  - destruct (IH _ H) as [Hle Hl]. split; [lia|].
    replace (i - a)%nat with (S (i - S a)) by lia. exact Hl.
Qed.

Lemma fill_item_of urls : Forall (item_of urls) (items (fill urls)).
Proof.
  rewrite fill_items. apply Forall_forall. intros [i u] Hin.
  apply list_elem_of_In in Hin.
  destruct (combine_seq_item _ _ _ _ Hin) as [_ H].
  unfold item_of. simpl. now rewrite Nat.sub_0_r in H.
Qed.

Lemma fst_combine {A B} (l : list A) (l' : list B) :
  length l = length l' -> map fst (combine l l') = l.
Proof.
  revert l'. induction l as [|x l IH]; intros [|y l']; simpl;
    try discriminate; [reflexivity|].
  intros [= H]. now rewrite IH.
Qed.

Lemma drop_tail {A} k (l : list A) x rest :
  drop k l = x :: rest -> drop (S k) l = rest.
Proof.
  revert l. induction k as [|k IH]; intros [|y l]; simpl; try discriminate.
  - now intros [= _ ->].
  - apply IH.
Qed.

Section RunsMore.

Variable w : World.
Variable args : Args.
Variable urls : list string.


(** X11: before the first thread is started the queue holds every entry
    of the input once, in the order of the input, each with its index,
    and as many unfinished tasks as there are entries. *)
Theorem queue_filled_in_order :
  let st := main_setup args urls in
  items (q st) = combine (seq 0 (length urls)) urls
  /\ map snd (items (q st)) = urls
  /\ map fst (items (q st)) = seq 0 (length urls)
  /\ unfinished_tasks (q st) = length urls
  /\ pool st = [].
Proof.
  simpl. rewrite fill_unfinished, fill_urls, fill_items.
  repeat split. apply fst_combine. now rewrite length_seq.
Qed.

(** X12: the queue is first in, first out and nothing is put back: in
    every state a run can reach, the queue holds the entries of the input
    from some index on, in the order of the input. *)
Theorem queue_is_suffix st :
  reachable w args urls st ->
  exists k, items (q st) = drop k (combine (seq 0 (length urls)) urls).
Proof.
  induction 1 as [|st st' _ [k IH] [[|i] Hact]]; simpl in *.
  - exists O. rewrite fill_items. reflexivity.
  - exists k. unfold main_step in Hact.
    destruct (main_pc st) as [[|n]|r]; [| |discriminate].
    + destruct (Nat.eqb _ 0); [|discriminate].
      destruct (main_report _ _). injection Hact as <-. exact IH.
    + injection Hact as <-. exact IH.
  - destruct (worker_step_moves _ _ _ _ _ Hact)
      as (n & t & t' & _ & _ & _ & _ & Hmoves).
    inversion Hmoves as
      [q0 s0 Hq|q0 s0 Hq|q0 s0 url rest Hq|q0 s0 url s1 Hcall
       |q0 s0 url s1 e Hcall|q0 s0 m Hq|q0 s0 Hq];
      try (exists k; congruence).
    + exists (S k). simpl. rewrite Hq in IH. symmetry.
      eapply drop_tail. symmetry. exact IH.
    + exists k. simpl. exact IH.
Qed.

(** X13: [q.task_done()] is never called once too often: whenever a
    thread is about to call it, the count of unfinished tasks is positive,
    and the call returns. *)
Theorem task_done_never_fails st i :
  reachable w args urls st -> pool st !! i = Some AtTaskDone ->
  unfinished_tasks (q st) <> O
  /\ exists q', q_task_done (q st) = Return q'.
Proof.
  intros Hreach Ht.
  destruct (invariant_reachable _ _ _ _ Hreach) as [_ _ _ _ _ Hunf _ _ _].
  assert (Hin : In AtTaskDone (pool st))
    by (apply list_elem_of_In; eapply list_elem_of_lookup_2; eassumption).
  pose proof (total_of_In owed _ _ Hin) as H. simpl in H.
  unfold q_task_done.
  destruct (unfinished_tasks (q st)); [lia|]. split; [lia | eauto].
Qed.

Lemma owed_idle t : owed t = O -> idle t.
Proof. unfold idle. destruct t; simpl; auto; discriminate. Qed.

Lemma exited_drained st r :
  reachable w args urls st -> main_pc st = Exited r ->
  items (q st) = [] /\ unfinished_tasks (q st) = O /\ Forall idle (pool st).
Proof.
  intros Hreach Hpc.
  destruct (invariant_reachable _ _ _ _ Hreach) as [_ _ _ _ _ Hunf _ Hex _].
  rewrite (Hex _ Hpc) in Hunf. repeat split.
  - destruct (items (q st)); [reflexivity | simpl in Hunf; lia].
  - now apply Hex with r.
  - apply Forall_forall. intros t Hin. apply list_elem_of_In in Hin.
    pose proof (total_of_In owed _ _ Hin). apply owed_idle. lia.
Qed.

(** X14: [main] leaves [q.join()] only when the queue is drained: once it
    is out, the queue is empty, no task is unfinished, and no thread holds
    an item, is about to mark one done, or has died. *)
Theorem join_means_drained st r :
  reachable w args urls st -> main_pc st = Exited r ->
  items (q st) = [] /\ unfinished_tasks (q st) = O /\ Forall idle (pool st).
Proof.
  exact (exited_drained st r).
Qed.

(** X15: with at least one thread requested, a run that has come to its
    end has left [main] exactly when no thread has died: an exception
    that escapes one call is what keeps [main] in [q.join()] for ever, and
    nothing else does. *)
Theorem run_completes_iff_no_thread_died st :
  1 <= threads args ->
  reachable w args urls st -> stuck w args urls st ->
  (exists r, main_pc st = Exited r)
  <-> Forall (fun t => forall e, t <> Died e) (pool st).
Proof.
  intros Hthreads Hreach Hstuck. split.
  - intros [r Hpc]. destruct (exited_drained _ _ Hreach Hpc) as (_ & _ & H).
    eapply Forall_impl; [exact H|]. intros t [ -> | [ -> | -> ] ] e; discriminate.
  - intros Halive.
    destruct (invariant_reachable _ _ _ _ Hreach)
      as [_ _ _ Hpool Hret Hunf Hbound _ _].
    unfold to_start in Hpool.
    destruct (main_pc st) as [[|k]|r] eqn:Hpc; [| |eauto].
    + exfalso.
      assert (Hblocked : forall i t, pool st !! i = Some t ->
                (t = AtGet /\ items (q st) = []) \/ t = Returned).
      { intros i t Ht.
        destruct (blocked_thread _ _ i st t (Hstuck (Worker i)) Hpc Ht)
          as [H|[H|[e ->]]]; auto.
        exfalso. eapply (Forall_lookup_1 _ _ _ _ Halive Ht). reflexivity. }
      assert (Howed : total_of owed (pool st) = O).
      { rewrite (total_of_all owed (pool st) 0); [lia|].
        apply Forall_lookup. intros i t Ht.
        destruct (Hblocked _ _ Ht) as [ [-> _] | -> ]; reflexivity. }
      assert (Hitems : items (q st) = []).
      { destruct (pool st) as [|t0 rest] eqn:Hp.
        - simpl in Hpool.
          destruct (items (q st)); [reflexivity|]. simpl in Hunf. lia.
        - destruct (Hblocked O t0 eq_refl) as [ [_ H] | -> ]; [exact H|].
          apply Hret. now left. }
      specialize (Hstuck Main). simpl in Hstuck. unfold main_step in Hstuck.
      rewrite Hpc, Hunf, Hitems, Howed in Hstuck. simpl in Hstuck.
      destruct (main_report _ _); discriminate.
    + specialize (Hstuck Main). simpl in Hstuck. unfold main_step in Hstuck.
      rewrite Hpc in Hstuck. discriminate.
Qed.

(** X16: when the number of threads requested is zero or negative and the
    input is not empty, nothing ever happens after the queue is filled: no
    thread is started, no item is taken, and [main] stays in [q.join()]. *)
Theorem no_thread_no_exit st :
  threads args <= 0 -> urls <> [] ->
  reachable w args urls st ->
  st = main_setup args urls
  /\ stuck w args urls st
  /\ forall r, main_pc st <> Exited r.
Proof.
  intros Hthreads Hurls.
  assert (Hz : Z.to_nat (Z.min (threads args) (Z.of_nat (length urls))) = O)
    by lia.
  assert (Hsetup : main_pc (main_setup args urls) = Starting 0
                   /\ pool (main_setup args urls) = []
                   /\ q (main_setup args urls) = fill urls).
  { unfold main_setup. cbv zeta. rewrite Hz. auto. }
  destruct Hsetup as (Hpc & Hpool & Hq).
  assert (Hstuck : stuck w args urls (main_setup args urls)).
  { intros [|i]; simpl.
    - unfold main_step. rewrite Hpc, Hq, fill_unfinished.
      destruct urls; [congruence | reflexivity].
    - unfold worker_step. rewrite Hpc, Hpool. reflexivity. }
  assert (Hall : forall st0, reachable w args urls st0 -> st0 = main_setup args urls).
  { induction 1 as [|st0 st1 _ -> [a Hact]]; [reflexivity|].
    rewrite Hstuck in Hact. discriminate. }
  intros Hreach. rewrite (Hall _ Hreach).
  split; [reflexivity|]. split; [exact Hstuck|].
  intros r. rewrite Hpc. discriminate.
Qed.

Lemma exit_summary st r :
  reachable w args urls st -> main_pc st = Exited r ->
  exists rows,
    cleanfile (shared st) = clean_header :: kept rows
    /\ r = match length urls with
           | O => Raise ZeroDivisionError
           | S _ =>
               Return {| successful_urls := length (kept rows);
                         total_urls := length urls;
                         success_rate :=
                           SFdiv 53 1024 (operand (length (kept rows)))
                                 (operand (length urls)) |}
           end.
Proof.
  intros Hreach. revert r.
  induction Hreach as [|st st' Hreach _ [[|i] Hact]]; intros r Hpc;
    simpl in *.
  - discriminate.
  - destruct (invariant_reachable _ _ _ _ Hreach) as [(rows & Hc & _) _ _ _ _ _ _ _ _].
    unfold main_step in Hact.
    destruct (main_pc st) as [[|k]|r0]; [| |discriminate].
    + destruct (Nat.eqb _ 0); [|discriminate].
      rewrite (main_report_eq _ _ _ Hc) in Hact. cbn zeta in Hact.
      exists rows.
      destruct (length urls); injection Hact as <-; simpl in *;
        injection Hpc as <-; auto.
    + injection Hact as <-. discriminate.
  - destruct (worker_step_moves _ _ _ _ _ Hact)
      as (k & t & t' & _ & Hpc' & _). congruence.
Qed.



Lemma true_div_zero n : true_div 0 (S n) = Return (S754_zero false).
Proof. reflexivity. Qed.


(** X18: [main] ends by an exception only on an empty input, and then
    by [ZeroDivisionError]; on any other input, if it ends, it ends with
    a summary. *)
Theorem main_fails_only_on_empty_input st r :
  reachable w args urls st -> main_pc st = Exited r ->
  (urls = [] /\ r = Raise ZeroDivisionError)
  \/ (urls <> [] /\ exists summary, r = Return summary).
Proof.
  intros Hreach Hpc.
  destruct (exit_summary _ _ Hreach Hpc) as (rows & _ & ->).
  destruct urls; simpl; [left | right]; split; eauto; discriminate.
Qed.



(** X20: in no state are there more threads than input entries, nor more
    than were requested. *)
Theorem threads_are_capped st :
  reachable w args urls st ->
  (length (pool st) <= length urls)%nat
  /\ Z.of_nat (length (pool st)) <= Z.max 0 (threads args).
Proof.
  intros Hreach.
  pose proof (inv_pool _ _ _ (invariant_reachable _ _ _ _ Hreach)) as H.
  split; lia.
Qed.

End RunsMore.

(** ** Rows, lines and headers along a run *)

Lemma logged_mono urls out out' r :
  (forall l, In l out -> In l out') -> logged urls out r -> logged urls out' r.
Proof.
  intros Hsub (url & Hitem & [(e & ? & ? & ? & ?)|(response & ? & ? & ?)]);
    exists url; split; auto; [left | right]; eauto 10.
Qed.

Section CallLog.

Variable w : World.
Variable url : WorkItem.
Variable session : Session.
Variables allow_redirects verify : bool.

Local Abbreviation get := (session_get w session url allow_redirects verify).
Local Abbreviation call_it := (get_text_from_url w url session allow_redirects verify).

Lemma session_get_appends s :
  cleanfile (fst (get s)) = cleanfile s /\ errorfile (fst (get s)) = errorfile s
  /\ stdout (fst (get s)) = stdout s /\ net s `prefix_of` net (fst (get s)).
Proof.
  rewrite session_get_eq. destruct (send _ _ _ _ _) as [r evs]. simpl.
  repeat split. now exists evs.
Qed.

(** Each of the four parts of the I/O state only grows in a call. *)
Lemma call_appends s :
  cleanfile s `prefix_of` cleanfile (fst (call_it s))
  /\ errorfile s `prefix_of` errorfile (fst (call_it s))
  /\ stdout s `prefix_of` stdout (fst (call_it s))
  /\ net s `prefix_of` net (fst (call_it s)).
Proof.
  destruct (session_get_appends s) as (Hc & He & Ho & Hn).
  destruct (get s) as [s1 [response|e]] eqn:Hget; simpl in *.
  - destruct (ok response) eqn:Hok.
    + destruct (Z.eq_dec (download_state (newspaper_Article w url)) 2) as [H2|H2].
      * pose proof (extraction_error_call _ _ _ _ _ _ _ _ Hget Hok H2) as Hcall.
        destruct (extraction_error w url) as [e1|].
        -- rewrite Hcall. simpl. rewrite Hc, He, Ho. auto.
        -- destruct Hcall as (date & time & _ & ->). simpl.
           rewrite Hc, He, Ho. repeat split; auto. now eexists.
      * rewrite (call_not_downloaded _ _ _ _ _ _ _ _ Hget Hok H2). simpl.
        rewrite Hc, He, Ho. auto.
    + rewrite (call_status _ _ _ _ _ _ _ _ Hget Hok). simpl.
      rewrite Hc, He, Ho. repeat split; auto; now eexists.
  - destruct (caught e) eqn:Hcaught.
    + rewrite (call_caught _ _ _ _ _ _ _ _ Hget Hcaught). simpl.
      rewrite Hc, He, Ho. repeat split; auto; [now eexists|].
      rewrite <- app_assoc. now eexists.
    + rewrite (call_uncaught _ _ _ _ _ _ _ _ Hget Hcaught). simpl.
      rewrite Hc, He, Ho. auto.
Qed.

(** A call that writes to the error file prints the lines of the row. *)
Lemma call_logs s s' r :
  call_it s = (s', r) ->
  errorfile s' = errorfile s
  \/ exists row,
       errorfile s' = errorfile s ++ [row]
       /\ forall urls, item_of urls url -> logged urls (stdout s') row.
Proof.
  destruct (get s) as [s1 [response|e]] eqn:Hget;
    destruct (session_get_files _ _ _ _ _ _ _ _ Hget) as (Hc & He & Ho).
  - destruct (ok response) eqn:Hok.
    + destruct (Z.eq_dec (download_state (newspaper_Article w url)) 2) as [H2|H2].
      * pose proof (extraction_error_call _ _ _ _ _ _ _ _ Hget Hok H2) as Hcall.
        destruct (extraction_error w url) as [e1|].
        -- rewrite Hcall. intros [= <- <-]. auto.
        -- destruct Hcall as (date & time & _ & ->). intros [= <- <-].
           simpl. auto.
      * rewrite (call_not_downloaded _ _ _ _ _ _ _ _ Hget Hok H2).
        intros [= <- <-]. auto.
    + rewrite (call_status _ _ _ _ _ _ _ _ Hget Hok). intros [= <- <-].
      right. eexists. simpl. rewrite He. split; [reflexivity|].
      intros urls Hitem. exists url. split; [exact Hitem|]. right.
      exists response. repeat split; auto.
      apply in_or_app. right. now left.
  - destruct (caught e) eqn:Hcaught.
    + rewrite (call_caught _ _ _ _ _ _ _ _ Hget Hcaught). intros [= <- <-].
      right. eexists. simpl. rewrite He. split; [reflexivity|].
      intros urls Hitem. exists url. split; [exact Hitem|]. left.
      exists e. repeat split; auto.
      * apply in_or_app. left. apply in_or_app. right. now left.
      * apply in_or_app. right. now left.
    + rewrite (call_uncaught _ _ _ _ _ _ _ _ Hget Hcaught).
      intros [= <- <-]. auto.
Qed.

End CallLog.

Lemma main_report_appends n s :
  errorfile (fst (main_report n s)) = errorfile s
  /\ net (fst (main_report n s)) = net s
  /\ stdout s `prefix_of` stdout (fst (main_report n s)).
Proof.
  unfold main_report, bind. rewrite (clean_up_output_cases s).
  destruct (cleanfile s) as [|h rows]; simpl; [auto|].
  destruct (column_index "text" h); simpl; [|auto].
  destruct n; simpl; repeat split; auto. now eexists.
Qed.

Lemma prefix_In {A} (l l' : list A) x : l `prefix_of` l' -> In x l -> In x l'.
Proof. intros [k ->] H. apply in_or_app. now left. Qed.

Section Traces.

Variable w : World.
Variable args : Args.
Variable urls : list string.


Lemma traced_reachable st : reachable w args urls st -> traced urls st.
Proof.
  induction 1 as [|st st' Hreach (Hq & Hp & Hl) [[|i] Hact]]; simpl in *.
  - repeat split; simpl; [apply fill_item_of | constructor | constructor].
  - unfold main_step in Hact.
    destruct (main_pc st) as [[|k]|r]; [| |discriminate].
    + destruct (Nat.eqb _ 0); [|discriminate].
      destruct (main_report_appends (length urls) (shared st)) as (He & _ & Ho).
      destruct (main_report _ _) as [s' r]. injection Hact as <-.
      simpl in *. unfold traced. simpl. repeat split; auto. rewrite He.
      eapply Forall_impl; [exact Hl|]. intros r0.
      apply logged_mono. intros l. now apply prefix_In.
    + injection Hact as <-. unfold traced. simpl. repeat split; auto.
      apply Forall_app. split; [exact Hp|].
      constructor; [discriminate | constructor].
  - destruct (invariant_reachable _ _ _ _ Hreach)
      as [_ (erows & Herr & _) _ _ _ _ _ _ _].
    destruct (worker_step_moves _ _ _ _ _ Hact)
      as (k & t & t' & _ & _ & Ht & Hpool' & Hmoves).
    pose proof (Forall_lookup_1 _ _ _ _ Hp Ht) as Hheld.
    unfold traced. rewrite Hpool'.
    inversion Hmoves as
      [q0 s0 Hq0|q0 s0 Hq0|q0 s0 url rest Hq0|q0 s0 url s1 Hcall
       |q0 s0 url s1 e Hcall|q0 s0 n Hq0|q0 s0 Hq0];
      subst t t'; simpl.
    + repeat split; auto. apply Forall_insert; [exact Hp | discriminate].
    + repeat split; auto. apply Forall_insert; [exact Hp | discriminate].
    + rewrite Hq0 in Hq. apply Forall_cons in Hq as [Hurl Hrest].
      repeat split; auto. apply Forall_insert; [exact Hp|].
      now intros ? [= <-].
    + split; [exact Hq|]. split; [apply Forall_insert; [exact Hp | discriminate]|].
      pose proof (call_appends w url (session args) (redirects args)
                    (unverified args) (shared st)) as (_ & _ & Ho & _).
      rewrite Hcall in Ho. simpl in Ho.
      assert (Hold : Forall (logged urls (stdout (shared st')))
                            (data_rows (errorfile (shared st)))).
      { eapply Forall_impl; [exact Hl|]. intros r0. apply logged_mono.
        intros l. now apply prefix_In. }
      destruct (call_logs _ _ _ _ _ _ _ _ Hcall) as [->|(row & -> & Hrow)];
        [exact Hold|].
      rewrite Herr in *. simpl in *. apply Forall_app. split; [exact Hold|].
      constructor; [|constructor]. apply Hrow. now apply Hheld.
    + split; [exact Hq|]. split; [apply Forall_insert; [exact Hp | discriminate]|].
      pose proof (call_appends w url (session args) (redirects args)
                    (unverified args) (shared st)) as (_ & _ & Ho & _).
      rewrite Hcall in Ho. simpl in Ho.
      assert (Hold : Forall (logged urls (stdout (shared st')))
                            (data_rows (errorfile (shared st)))).
      { eapply Forall_impl; [exact Hl|]. intros r0. apply logged_mono.
        intros l. now apply prefix_In. }
      destruct (call_logs _ _ _ _ _ _ _ _ Hcall) as [->|(row & -> & Hrow)];
        [exact Hold|].
      rewrite Herr in *. simpl in *. apply Forall_app. split; [exact Hold|].
      constructor; [|constructor]. apply Hrow. now apply Hheld.
    + repeat split; auto. apply Forall_insert; [exact Hp | discriminate].
    + repeat split; auto. apply Forall_insert; [exact Hp | discriminate].
Qed.


Lemma caught_name e : caught e = true -> class_name e <> "error".
Proof. destruct e; simpl; intros H; discriminate. Qed.

(** X22: each file starts with its header, and the header is in it
    once: no row a thread writes is equal to it. *)
Theorem headers_written_once st :
  reachable w args urls st ->
  exists rows erows,
    cleanfile (shared st) = clean_header :: rows
    /\ ~ In clean_header rows
    /\ errorfile (shared st) = error_header :: erows
    /\ ~ In error_header erows.
Proof.
  intros Hreach.
  destruct (invariant_reachable _ _ _ _ Hreach)
    as [(rows & Hc & Hshape) (erows & He & _) _ _ _ _ _ _ _].
  destruct (traced_reachable _ Hreach) as (_ & _ & Hlog). rewrite He in Hlog.
  simpl in Hlog. exists rows, erows. repeat split; auto.
  - intros Hin. apply list_elem_of_In in Hin.
    destruct (proj1 (Forall_forall _ _) Hshape _ Hin)
      as (u & ? & ? & ? & ? & ? & ? & ? & [=]).
  - intros Hin. apply list_elem_of_In in Hin.
    destruct (proj1 (Forall_forall _ _) Hlog _ Hin)
      as (url & _ & [(e & Hcaught & [= _ Hname] & _)|(response & _ & [=] & _)]).
    now apply (caught_name e).
Qed.


(** X24: the error file, the printed lines and the network log only
    grow, at every step of any thread; the clean file only grows at
    every step of a worker thread (it is rewritten by [main] alone, in
    [clean_up_output]). *)
Theorem sinks_are_append_only a st st' :
  act w args urls a st = Some st' ->
  errorfile (shared st) `prefix_of` errorfile (shared st')
  /\ stdout (shared st) `prefix_of` stdout (shared st')
  /\ net (shared st) `prefix_of` net (shared st')
  /\ (a <> Main -> cleanfile (shared st) `prefix_of` cleanfile (shared st')).
Proof.
  destruct a as [|i]; simpl; intros Hact.
  - unfold main_step in Hact.
    destruct (main_pc st) as [[|k]|r]; [| |discriminate].
    + destruct (Nat.eqb _ 0); [|discriminate].
      destruct (main_report_appends (length urls) (shared st)) as (He & Hn & Ho).
      destruct (main_report _ _) as [s' r]. injection Hact as <-. simpl in *.
      rewrite He, Hn. repeat split; auto. congruence.
    + injection Hact as <-. simpl. repeat split; auto.
  - destruct (worker_step_moves _ _ _ _ _ Hact)
      as (k & t & t' & _ & _ & _ & _ & Hmoves).
    inversion Hmoves as
      [q0 s0 Hq0|q0 s0 Hq0|q0 s0 url rest Hq0|q0 s0 url s1 Hcall
       |q0 s0 url s1 e Hcall|q0 s0 n Hq0|q0 s0 Hq0];
      try (repeat split; auto; fail).
    + pose proof (call_appends w url (session args) (redirects args)
                    (unverified args) (shared st)) as (Hc & He & Ho & Hn).
      rewrite Hcall in *. simpl in *. auto.
    + pose proof (call_appends w url (session args) (redirects args)
                    (unverified args) (shared st)) as (Hc & He & Ho & Hn).
      rewrite Hcall in *. simpl in *. auto.
Qed.

End Traces.


Lemma headers_written_once_witness :
  exists rows erows,
    cleanfile (shared Sample.scenario_end) = clean_header :: rows
    /\ ~ In clean_header rows
    /\ errorfile (shared Sample.scenario_end) = error_header :: erows
    /\ ~ In error_header erows.
Proof.
  apply (headers_written_once Sample.world Sample.defaults Sample.scenario).
  apply reachable_run, reachable_setup.
Defined.


(** The step in which a thread records the 404 of the scenario. *)
Lemma sinks_are_append_only_witness :
  let setup := main_setup Sample.defaults [Sample.missing] in
  let st := run Sample.world Sample.defaults [Sample.missing]
                [Main; Worker 0; Worker 0] setup in
  let st' := run Sample.world Sample.defaults [Sample.missing]
                 [Main; Worker 0; Worker 0; Worker 0] setup in
  errorfile (shared st) `prefix_of` errorfile (shared st')
  /\ length (errorfile (shared st')) = 2%nat.
Proof.
  intros setup st st'.
  destruct (sinks_are_append_only Sample.world Sample.defaults
              [Sample.missing] (Worker 0) st st') as (H & _).
  - reflexivity.
  - split; [exact H | reflexivity].
Defined.

(** ** The further properties on the sample runs *)

(** The page without a [<time>] element: the call raises
    [AttributeError] after the one request. *)
Lemma call_raises_cases_witness :
  let url := (0%nat, Sample.no_time) in
  let s := shared (main_setup Sample.defaults [Sample.no_time]) in
  get_text_from_url Sample.world url (session Sample.defaults) false true s
  = (append_net [Attempt Sample.no_time] s, Raise AttributeError).
Proof.
  intros url s.
  destruct (call_raises_cases Sample.world url (session Sample.defaults)
              false true s (append_net [Attempt Sample.no_time] s))
    as (_ & _ & H).
  apply (H {| status_code := 200 |}); reflexivity.
Defined.

(** The page without a [<time>] element. *)
Lemma call_raises_without_trace_witness :
  let s := shared (main_setup Sample.defaults [Sample.no_time]) in
  let s' := fst (get_text_from_url Sample.world (0%nat, Sample.no_time)
                   (session Sample.defaults) false true s) in
  cleanfile s' = [clean_header] /\ errorfile s' = [error_header] /\ stdout s' = [].
Proof.
  intros s s'.
  apply (call_raises_without_trace Sample.world (0%nat, Sample.no_time)
           (session Sample.defaults) false true s AttributeError).
  reflexivity.
Defined.

(** The page of the scenario. *)
Lemma successful_extraction_recorded_witness :
  let s := shared (main_setup Sample.defaults Sample.scenario) in
  let s' := fst (get_text_from_url Sample.world (0%nat, Sample.page)
                   (session Sample.defaults) false true s) in
  urls_of (cleanfile s') = [Sample.page] /\ errorfile s' = [error_header].
Proof.
  intros s s'. subst s'.
  destruct (successful_extraction_recorded Sample.world (0%nat, Sample.page)
              (session Sample.defaults) false true s
              (append_net [Attempt Sample.page] s) {| status_code := 200 |}
              "2019-03-04" "10:11:12") as (-> & _); try reflexivity.
  split; reflexivity.
Defined.

(** A refused connection. *)
Lemma caught_exception_recorded_witness :
  let s := shared (main_setup Sample.defaults [Sample.down]) in
  let s' := fst (get_text_from_url Sample.world (0%nat, Sample.down)
                   (session Sample.defaults) false true s) in
  data_rows (errorfile s') = [[PyStr Sample.down; PyStr "ConnectionError"]]
  /\ stdout s' = ["#0: ConnectionError https://down.example/";
                  "https://down.example/ is not a valid URL"].
Proof.
  intros s s'. subst s'.
  destruct (caught_exception_recorded Sample.world (0%nat, Sample.down)
              (session Sample.defaults) false true s
              (append_net [Attempt Sample.down] s) ConnectionError)
    as (_ & ->); try reflexivity.
  split; reflexivity.
Defined.

Lemma scenario_end_reachable :
  reachable Sample.world Sample.defaults Sample.scenario Sample.scenario_end.
Proof. apply reachable_run, reachable_setup. Qed.

Lemma scenario_end_exited :
  main_pc Sample.scenario_end
  = Exited (Return {| successful_urls := 1; total_urls := 3;
                      success_rate :=
                        S754_finite false 6004799503160661 (-54) |}).
Proof. vm_compute. reflexivity. Qed.

Lemma queue_is_suffix_witness :
  exists k, items (q Sample.scenario_end)
            = drop k (combine (seq 0 3) Sample.scenario).
Proof.
  apply (queue_is_suffix Sample.world Sample.defaults Sample.scenario).
  exact scenario_end_reachable.
Defined.

(** The thread that has just recorded the 404. *)
Lemma task_done_never_fails_witness :
  let st := run Sample.world Sample.defaults [Sample.missing]
                [Main; Worker 0; Worker 0; Worker 0]
                (main_setup Sample.defaults [Sample.missing]) in
  unfinished_tasks (q st) <> O.
Proof.
  intros st.
  apply (task_done_never_fails Sample.world Sample.defaults [Sample.missing] st O).
  - apply reachable_run, reachable_setup.
  - reflexivity.
Defined.

Lemma join_means_drained_witness :
  items (q Sample.scenario_end) = []
  /\ unfinished_tasks (q Sample.scenario_end) = O
  /\ Forall idle (pool Sample.scenario_end).
Proof.
  apply (join_means_drained Sample.world Sample.defaults Sample.scenario
           Sample.scenario_end _ scenario_end_reachable scenario_end_exited).
Defined.

Lemma run_completes_iff_no_thread_died_witness :
  (exists r, main_pc Sample.scenario_end = Exited r)
  <-> Forall (fun t => forall e, t <> Died e) (pool Sample.scenario_end).
Proof.
  apply (run_completes_iff_no_thread_died Sample.world Sample.defaults
           Sample.scenario Sample.scenario_end).
  - simpl. lia.
  - exact scenario_end_reachable.
  - intros [|i]; reflexivity.
Defined.

(** [--threads -1] on one URL. *)
Lemma no_thread_no_exit_witness :
  let st := main_setup Sample.negative [Sample.page] in
  stuck Sample.world Sample.negative [Sample.page] st
  /\ forall r, main_pc st <> Exited r.
Proof.
  intros st.
  destruct (no_thread_no_exit Sample.world Sample.negative [Sample.page] st)
    as (_ & H1 & H2).
  - simpl. lia.
  - discriminate.
  - apply reachable_setup.
  - split; assumption.
Defined.


Lemma main_fails_only_on_empty_input_witness :
  Sample.scenario <> []
  /\ exists summary,
       Return {| successful_urls := 1; total_urls := 3;
                 success_rate := S754_finite false 6004799503160661 (-54) |}
       = Return summary.
Proof.
  destruct (main_fails_only_on_empty_input Sample.world Sample.defaults
              Sample.scenario Sample.scenario_end _ scenario_end_reachable
              scenario_end_exited) as [[H _]|H]; [discriminate H | exact H].
Defined.


Lemma threads_are_capped_witness :
  (length (pool Sample.scenario_end) <= 3)%nat
  /\ Z.of_nat (length (pool Sample.scenario_end)) <= Z.max 0 100.
Proof.
  apply (threads_are_capped Sample.world Sample.defaults Sample.scenario
           Sample.scenario_end scenario_end_reachable).
Defined.

(** ** Strings and paths *)

Local Arguments String.append : simpl nomatch.

Lemma append_assoc' (a b c : string) : (a +:+ b) +:+ c = a +:+ (b +:+ c).
Proof. induction a as [|x a IH]; simpl; [reflexivity | now rewrite IH]. Qed.

Lemma contains_append c a b :
  contains c (a +:+ b) = contains c a || contains c b.
Proof.
  induction a as [|x a IH]; simpl; [reflexivity|].
  rewrite IH. now rewrite orb_assoc.
Qed.

Lemma split_on_cons c s : exists p ps, split_on c s = p :: ps.
Proof.
  induction s as [|a s (p & ps & IH)]; simpl; [eauto|].
  destruct (Ascii.eqb a c); [eauto|]. rewrite IH. eauto.
Qed.

(** No piece holds the separator, and no piece holds a character the
    string does not hold. *)
Lemma split_on_pieces c d s :
  Forall (fun p => contains c p = false
                   /\ (contains d s = false -> contains d p = false))
         (split_on c s).
Proof.
  induction s as [|a s IH]; simpl.
  - repeat constructor.
  - destruct (Ascii.eqb a c) eqn:Hac.
    + constructor; [split; reflexivity|].
      eapply Forall_impl; [exact IH|]. intros p [H1 H2]. split; [exact H1|].
      intros H. apply orb_false_elim in H as [_ H]. auto.
    + destruct (split_on c s) as [|p ps]; [repeat constructor; simpl|].
      * now rewrite Hac.
      * intros H. apply orb_false_elim in H as [-> _]. reflexivity.
      * apply Forall_cons in IH as [[H1 H2] IH]. constructor.
        -- simpl. rewrite Hac, H1. split; [reflexivity|].
           intros H. apply orb_false_elim in H as [-> H]. simpl. auto.
        -- eapply Forall_impl; [exact IH|]. intros p' [H1' H2'].
           split; [exact H1'|]. intros H.
           apply orb_false_elim in H as [_ H]. auto.
Qed.

Lemma split_on_clean c s : contains c s = false -> split_on c s = [s].
Proof.
  induction s as [|a s IH]; simpl; [reflexivity|].
  intros H. apply orb_false_elim in H as [-> H]. now rewrite IH.
Qed.

(** The pieces of a string that ends with the separator and a piece. *)
Lemma split_on_snoc c a t :
  contains c t = false ->
  exists p ps, split_on c (a +:+ String c t) = p :: ps ++ [t].
Proof.
  intros Ht. induction a as [|x a (p & ps & IH)]; simpl.
  - rewrite Ascii.eqb_refl, (split_on_clean _ _ Ht). exists "", []. reflexivity.
  - rewrite IH. destruct (Ascii.eqb x c).
    + exists "", (p :: ps). reflexivity.
    + exists (String x p), ps. reflexivity.
Qed.

Lemma split_on_last c a t :
  contains c t = false -> List.last (split_on c (a +:+ String c t)) "" = t.
Proof.
  intros Ht. destruct (split_on_snoc c a t Ht) as (p & ps & ->).
  rewrite app_comm_cons. apply last_last.
Qed.

Lemma split_on_hd c a t :
  hd "" (split_on c (a +:+ String c t)) = hd "" (split_on c a).
Proof.
  induction a as [|x a IH]; simpl.
  - now rewrite Ascii.eqb_refl.
  - destruct (Ascii.eqb x c); [reflexivity|].
    destruct (split_on_cons c (a +:+ String c t)) as (p & ps & Hp).
    destruct (split_on_cons c a) as (p' & ps' & Hp').
    rewrite Hp, Hp' in *. simpl in *. now rewrite IH.
Qed.

(** A string that holds the separator splits at its last occurrence. *)
Lemma contains_last c s :
  contains c s = true ->
  exists a t, s = a +:+ String c t /\ contains c t = false.
Proof.
  induction s as [|x s IH]; simpl; [discriminate|].
  destruct (contains c s) eqn:Hs.
  - intros _. destruct (IH eq_refl) as (a & t & -> & Ht).
    exists (String x a), t. split; [reflexivity | exact Ht].
  - rewrite orb_false_r. intros Hx. apply Ascii.eqb_eq in Hx as ->.
    exists "", s. split; [reflexivity | exact Hs].
Qed.

(** A string that holds the separator ends with it and the last piece. *)
Lemma split_on_ends c s :
  contains c s = true ->
  exists a, s = a +:+ String c (List.last (split_on c s) "").
Proof.
  intros H. destruct (contains_last c s H) as (a & t & -> & Ht).
  exists a. now rewrite (split_on_last c a t Ht).
Qed.

Lemma basename_ends p : exists a, p = a +:+ basename p.
Proof.
  unfold basename. destruct (contains "/" p) eqn:H.
  - destruct (split_on_ends _ _ H) as (a & Ha).
    exists (a +:+ "/"). rewrite append_assoc'. exact Ha.
  - rewrite (split_on_clean _ _ H). exists "". reflexivity.
Qed.

Lemma basename_clean p : contains "/" (basename p) = false.
Proof.
  unfold basename.
  destruct (split_on_cons "/" p) as (x & xs & Hx).
  pose proof (split_on_pieces "/" "/" p) as H. rewrite Hx in *.
  assert (Hin : In (List.last (x :: xs) "") (x :: xs))
    by (destruct (exists_last (l := x :: xs)) as (l' & y & ->);
        [discriminate | rewrite last_last; apply in_or_app; right; now left]).
  apply list_elem_of_In in Hin.
  now destruct (proj1 (Forall_forall _ _) H _ Hin).
Qed.

Lemma basename_of dir base :
  contains "/" base = false -> basename (dir +:+ String "/" base) = base.
Proof. intros H. unfold basename. now apply split_on_last. Qed.

Lemma lstrip_dots_ends s : exists a, s = a +:+ lstrip_dots s.
Proof.
  induction s as [|x s (a & IH)]; [exists ""; reflexivity|].
  destruct (Ascii.eqb_spec x ".") as [->|Hx].
  - exists (String "." a). simpl. now rewrite <- IH.
  - exists "". simpl.
    destruct x as [[] [] [] [] [] [] [] []]; try reflexivity. congruence.
Qed.

Lemma lstrip_dots_id x s : x <> "."%char -> lstrip_dots (String x s) = String x s.
Proof.
  intros Hx. simpl.
  destruct x as [[] [] [] [] [] [] [] []]; try reflexivity. congruence.
Qed.

(** The extension of a path whose base name is a name that does not
    start with a dot, a dot, and a suffix without dot. *)
Lemma splitext_of dir x stem e :
  x <> "."%char -> contains "/" (String x stem) = false ->
  contains "/" e = false -> contains "." e = false ->
  snd (splitext (dir +:+ String "/" (String x stem +:+ String "." e)))
  = String "." e.
Proof.
  intros Hx Hstem He Hdot. unfold splitext.
  rewrite basename_of
    by (rewrite contains_append, Hstem; simpl; exact He).
  change (String x stem +:+ String "." e)
    with (String x (stem +:+ String "." e)).
  rewrite (lstrip_dots_id _ _ Hx).
  change (String x (stem +:+ String "." e))
    with (String x stem +:+ String "." e).
  rewrite contains_append. simpl contains at 2. rewrite orb_true_r.
  cbv beta iota delta [snd]. now rewrite (split_on_last "." _ _ Hdot).
Qed.

(** A string is its first piece, or its first piece, the separator and
    the rest. *)
Lemma split_on_hd_first c s :
  s = hd "" (split_on c s)
  \/ exists rest, s = hd "" (split_on c s) +:+ String c rest.
Proof.
  induction s as [|x s IH]; simpl; [now left|].
  destruct (Ascii.eqb_spec x c) as [->|_]; [right; exists s; reflexivity|].
  destruct (split_on_cons c s) as (p & ps & Hp). rewrite Hp in *. simpl in *.
  destruct IH as [IH|(rest & IH)].
  - left. now rewrite <- IH.
  - right. exists rest. now rewrite <- IH.
Qed.

(** ** [parse_input_file] *)

Section Input.

Variable os : OS.
Variable filepath : string.

Local Abbreviation abspath := (os_path_abspath os filepath).

Lemma parse_input_file_Return urls name :
  parse_input_file os filepath = Return (urls, name) ->
  name = hd "" (split_on "." (basename abspath))
  /\ In (snd (splitext abspath)) [".xlsx"; ".xls"; ".csv"; ".txt"].
Proof.
  unfold parse_input_file. destruct (splitext abspath) as [root ext]. simpl.
  destruct (String.eqb_spec ext ".xlsx") as [->|_]; simpl.
  { destruct (read_excel_first_column _ _); intros [= <- <-]; auto. }
  destruct (String.eqb_spec ext ".xls") as [->|_]; simpl.
  { destruct (read_excel_first_column _ _); intros [= <- <-]; auto. }
  destruct (String.eqb_spec ext ".csv") as [->|_]; simpl.
  { destruct (read_splitlines _ _); intros [= <- <-]; auto. }
  destruct (String.eqb_spec ext ".txt") as [->|_]; simpl.
  { destruct (read_splitlines _ _); intros [= <- <-]; auto 6. }
  discriminate.
Qed.

(** X25: the name [parse_input_file] returns holds no dot and no slash,
    and it is the base name of the path up to its first dot: the base
    name is the name itself, or the name, a dot and a rest. *)
Theorem parse_input_file_name_is_clean urls name :
  parse_input_file os filepath = Return (urls, name) ->
  contains "." name = false /\ contains "/" name = false
  /\ (basename abspath = name
      \/ exists rest, basename abspath = name +:+ String "." rest).
Proof.
  intros H. destruct (parse_input_file_Return _ _ H) as [-> _].
  destruct (split_on_cons "." (basename abspath)) as (p & ps & Hp).
  pose proof (split_on_pieces "." "/" (basename abspath)) as Hpieces.
  pose proof (split_on_hd_first "." (basename abspath)) as Hfirst.
  rewrite Hp in *. simpl in *.
  apply Forall_cons in Hpieces as [[H1 H2] _].
  split; [exact H1|]. split; [apply H2, basename_clean|].
  destruct Hfirst as [Hfirst|(rest & Hfirst)]; [left | right; exists rest];
    now rewrite <- Hfirst.
Qed.

(** X26: [parse_input_file] reads a file only when its path ends with
    one of the four extensions, in lower case; any other path raises
    before a reader is called. *)
Theorem parse_input_file_accepts_four_extensions urls name :
  parse_input_file os filepath = Return (urls, name) ->
  exists root ext,
    abspath = root +:+ ext /\ In ext [".xlsx"; ".xls"; ".csv"; ".txt"].
Proof.
  intros H. destruct (parse_input_file_Return _ _ H) as [_ Hext].
  unfold splitext in Hext.
  destruct (contains "." (lstrip_dots (basename abspath))) eqn:Hdot.
  - simpl in Hext.
    destruct (basename_ends abspath) as (a1 & H1).
    destruct (lstrip_dots_ends (basename abspath)) as (a2 & H2).
    destruct (split_on_ends _ _ Hdot) as (a3 & H3).
    exists (a1 +:+ a2 +:+ a3), (String "." (List.last
      (split_on "." (lstrip_dots (basename abspath))) "")).
    split; [|exact Hext].
    rewrite !append_assoc', <- H3, <- H2. exact H1.
  - simpl in Hext. intuition discriminate.
Qed.

(** X27: for a path made of a directory, a slash, a name that does not
    start with a dot, a dot, and a suffix without dot, the suffix alone
    decides what happens: [xlsx] and [xls] go to the spreadsheet reader,
    [csv] and [txt] to the line reader, anything else raises; the name
    returned is the start of the file name up to its first dot. *)
Theorem parse_input_file_by_suffix dir x stem e :
  abspath = dir +:+ String "/" (String x stem +:+ String "." e) ->
  x <> "."%char -> contains "/" (String x stem) = false ->
  contains "/" e = false -> contains "." e = false ->
  let name := hd "" (split_on "." (String x stem)) in
  let read reader :=
    match reader os abspath with
    | Return urls => Return (urls, name)
    | Raise err => Raise err
    end in
  parse_input_file os filepath
  = if String.eqb e "xlsx" || String.eqb e "xls" then read read_excel_first_column
    else if String.eqb e "csv" || String.eqb e "txt" then read read_splitlines
    else Raise Exception.
Proof.
  intros Hpath Hx Hstem He Hdot name read.
  pose proof (splitext_of dir x stem e Hx Hstem He Hdot) as Hext.
  unfold parse_input_file. rewrite <- Hpath in Hext.
  destruct (splitext abspath) as [root ext]. simpl in Hext. subst ext.
  assert (Hname : hd "" (split_on "." (basename abspath)) = name).
  { rewrite Hpath, basename_of
      by (rewrite contains_append, Hstem; simpl; exact He).
    apply split_on_hd. }
  rewrite Hname. reflexivity.
Qed.

(** X28: neither the directory nor what follows the first dot of the
    file name is in the name returned: inputs that differ only there get
    the same name, hence the same two output files. *)
Theorem parse_input_file_name_ignores urls name dir stem rest :
  parse_input_file os filepath = Return (urls, name) ->
  abspath = dir +:+ String "/" (stem +:+ String "." rest) ->
  contains "/" stem = false -> contains "." stem = false ->
  contains "/" rest = false ->
  name = stem.
Proof.
  intros H Hpath Hslash Hdot Hrest.
  destruct (parse_input_file_Return _ _ H) as [-> _].
  rewrite Hpath, basename_of
    by (rewrite contains_append, Hslash; simpl; exact Hrest).
  rewrite split_on_hd, (split_on_clean _ _ Hdot). reflexivity.
Qed.

End Input.

(** The sample machine, run on [lists/my.urls.csv]. *)
Lemma parse_input_file_name_is_clean_witness :
  contains "." "my" = false /\ contains "/" "my" = false
  /\ (basename "/home/user/scrape/lists/my.urls.csv" = "my"
      \/ exists rest,
           basename "/home/user/scrape/lists/my.urls.csv"
           = "my" +:+ String "." rest).
Proof.
  apply (parse_input_file_name_is_clean Files.os "lists/my.urls.csv"
           [Sample.page; Sample.missing] "my").
  reflexivity.
Defined.

Lemma parse_input_file_accepts_four_extensions_witness :
  exists root ext,
    "/home/user/scrape/lists/my.urls.csv" = root +:+ ext
    /\ In ext [".xlsx"; ".xls"; ".csv"; ".txt"].
Proof.
  apply (parse_input_file_accepts_four_extensions Files.os "lists/my.urls.csv"
           [Sample.page; Sample.missing] "my").
  reflexivity.
Defined.

(** An extension in upper case is not one of the four. *)
Lemma parse_input_file_by_suffix_witness :
  parse_input_file Files.os "lists/urls.CSV" = Raise Exception.
Proof.
  rewrite (parse_input_file_by_suffix Files.os "lists/urls.CSV"
             "/home/user/scrape/lists" "u" "rls" "CSV"); reflexivity || discriminate.
Defined.

(** [lists/my.urls.csv] gives the name [my], as [/tmp/my.txt] does. *)
Lemma parse_input_file_name_ignores_witness :
  hd "" (split_on "." (basename "/home/user/scrape/lists/my.urls.csv")) = "my"
  /\ parse_input_file Files.os "/tmp/my.txt"
     = parse_input_file Files.os "lists/my.urls.csv".
Proof.
  split; [|reflexivity].
  apply (parse_input_file_name_ignores Files.os "lists/my.urls.csv"
           [Sample.page; Sample.missing]
           (hd "" (split_on "." (basename "/home/user/scrape/lists/my.urls.csv")))
           "/home/user/scrape/lists" "my" "urls.csv"); reflexivity.
Defined.

(** ** [create_output_filename] *)

Lemma list_ascii_of_string_append a b :
  list_ascii_of_string (a +:+ b)
  = list_ascii_of_string a ++ list_ascii_of_string b.
Proof. induction a as [|x a IH]; simpl; [reflexivity | now rewrite IH]. Qed.

Lemma list_ascii_of_string_inj a b :
  list_ascii_of_string a = list_ascii_of_string b -> a = b.
Proof.
  intros H. rewrite <- (string_of_list_ascii_of_string a),
    <- (string_of_list_ascii_of_string b). now rewrite H.
Qed.

(** A common suffix can be cancelled. *)
Lemma append_inv_tail a b s : a +:+ s = b +:+ s -> a = b.
Proof.
  intros H. apply (f_equal list_ascii_of_string) in H.
  rewrite !list_ascii_of_string_append in H.
  apply app_inv_tail in H. now apply list_ascii_of_string_inj.
Qed.

(** No string ends both with [-contents.csv] and with [-error.csv]. *)
Lemma suffixes_differ a b : a +:+ "-contents.csv" <> b +:+ "-error.csv".
Proof.
  intros H. apply (f_equal list_ascii_of_string) in H.
  rewrite !list_ascii_of_string_append in H.
  apply (f_equal (fun l => firstn 10 (List.rev l))) in H.
  rewrite !rev_app_distr in H. simpl in H. discriminate.
Qed.

Lemma concat_snoc sep (ps : list string) x :
  ps <> [] ->
  String.concat sep (ps ++ [x]) = String.concat sep ps +:+ sep +:+ x.
Proof.
  induction ps as [|p ps IH]; [congruence|]. intros _.
  destruct ps as [|p' ps]; [reflexivity|].
  change (String.concat sep ((p :: p' :: ps) ++ [x]))
    with (p +:+ sep +:+ String.concat sep ((p' :: ps) ++ [x])).
  rewrite IH by discriminate.
  change (String.concat sep (p :: p' :: ps))
    with (p +:+ sep +:+ String.concat sep (p' :: ps)).
  now rewrite !append_assoc'.
Qed.

Lemma anchor_of_clean x s :
  contains "/" (String x s) = false -> anchor_of (String x s) = "".
Proof.
  simpl. intros H. apply orb_false_elim in H as [H _].
  destruct x as [[] [] [] [] [] [] [] []]; try reflexivity; discriminate.
Qed.

(** Joining a single component. *)
Lemma joinpath_component p x s :
  contains "/" (String x s) = false -> String x s <> "." ->
  joinpath p (String x s) = {| anchor := anchor p; parts := parts p ++ [String x s] |}.
Proof.
  intros Hclean Hdot. unfold joinpath.
  rewrite (anchor_of_clean _ _ Hclean). simpl String.eqb. cbn iota.
  unfold parts_of. rewrite (split_on_clean _ _ Hclean).
  cbv beta iota delta [List.filter].
  change (String.eqb (String x s) "") with false.
  destruct (String.eqb_spec (String x s) ".") as [E|_]; [contradiction|].
  reflexivity.
Qed.

Lemma path_str_parts a ps x :
  path_str {| anchor := a; parts := ps ++ [x] |}
  = a +:+ String.concat "/" (ps ++ [x]).
Proof.
  unfold path_str. simpl. destruct a; [|reflexivity].
  destruct ps; reflexivity.
Qed.

Section Output.

Variable os : OS.

(** The directory [exports] under the working directory. *)
Local Abbreviation exports :=
  (path_str (joinpath (PurePath_of (os_getcwd os)) "exports")).

Lemma output_name name suffix :
  contains "/" name = false -> contains "/" suffix = false ->
  (2 <= String.length suffix)%nat ->
  path_str (joinpath (joinpath (PurePath_of (os_getcwd os)) "exports")
                     (name +:+ suffix))
  = exports +:+ "/" +:+ name +:+ suffix.
Proof.
  intros Hname Hsuffix Hlen.
  assert (Hfile : exists x s, name +:+ suffix = String x s
                    /\ contains "/" (String x s) = false /\ String x s <> ".").
  { destruct (name +:+ suffix) as [|x s] eqn:E.
    - apply (f_equal String.length) in E. rewrite length_append in E.
      simpl in E. lia.
    - exists x, s. split; [reflexivity|]. split.
      + rewrite <- E, contains_append, Hname, Hsuffix. reflexivity.
      + intros H. rewrite <- E in H. apply (f_equal String.length) in H.
        rewrite length_append in H. simpl in H. lia. }
  destruct Hfile as (x & s & Hfile & Hclean & Hdot). rewrite Hfile.
  rewrite (joinpath_component _ _ _ Hclean Hdot).
  rewrite (joinpath_component (PurePath_of (os_getcwd os)) "e" "xports")
    by (reflexivity || discriminate).
  cbn [anchor parts]. rewrite !path_str_parts.
  rewrite (concat_snoc "/" (_ ++ ["exports"]))
    by (intros E; apply app_eq_nil in E as [_ E]; discriminate).
  now rewrite !append_assoc'.
Qed.

Lemma create_output_filename_eq name :
  contains "/" name = false ->
  create_output_filename os name
  = (exports +:+ "/" +:+ name +:+ "-contents.csv",
     exports +:+ "/" +:+ name +:+ "-error.csv").
Proof.
  intros Hname. unfold create_output_filename. cbv zeta.
  rewrite !output_name; auto; simpl; lia.
Qed.

(** X29: for a name without slash, as [parse_input_file] returns them,
    the two output files are, in the directory [exports] under the
    working directory, the name followed by [-contents.csv] and by
    [-error.csv]. *)
Theorem output_names_in_exports name :
  contains "/" name = false ->
  create_output_filename os name
  = (exports +:+ "/" +:+ name +:+ "-contents.csv",
     exports +:+ "/" +:+ name +:+ "-error.csv").
Proof. exact (create_output_filename_eq name). Qed.

(** X30: for names without slash, two names give the same clean file
    only if they are the same name, and likewise for the error file; and
    the clean file of a name is never the error file of a name. *)
Theorem output_names_distinct name1 name2 :
  contains "/" name1 = false -> contains "/" name2 = false ->
  (fst (create_output_filename os name1) = fst (create_output_filename os name2)
   <-> name1 = name2)
  /\ (snd (create_output_filename os name1) = snd (create_output_filename os name2)
      <-> name1 = name2)
  /\ fst (create_output_filename os name1) <> snd (create_output_filename os name2).
Proof.
  intros H1 H2. rewrite !create_output_filename_eq by assumption.
  cbn [fst snd]. repeat split; try congruence.
  - intros H. do 2 apply String.app_inj in H. now apply append_inv_tail in H.
  - intros H. do 2 apply String.app_inj in H. now apply append_inv_tail in H.
  - intros H. do 2 apply String.app_inj in H. now apply suffixes_differ in H.
Qed.

End Output.

Lemma output_names_in_exports_witness :
  create_output_filename Files.os "my"
  = ("/home/user/scrape/exports/my-contents.csv",
     "/home/user/scrape/exports/my-error.csv").
Proof.
  rewrite (output_names_in_exports Files.os "my"); reflexivity.
Defined.

Lemma output_names_distinct_witness :
  fst (create_output_filename Files.os "my")
  <> snd (create_output_filename Files.os "urls").
Proof.
  apply (output_names_distinct Files.os "my" "urls"); reflexivity.
Defined.
